(** * lambda-openapi: metadata store, inference heuristics and OpenAPI assembly

    A shallow embedding of
    - [src/utils/metadata.ts]            (class [MetadataManager]),
    - [src/decorators/api-operation.ts], [api-param.ts], [api-response.ts],
    - [src/generator/openapi-generator.ts] (class [OpenApiGenerator]),
    together with the properties the specification states about them.

    Conventions of the embedding.
    - A JavaScript [string] is a Rocq [string] holding its UTF-8 bytes, the
      way a string literal is read. The case mapping of
      [String.prototype.toLowerCase] is embedded for the code points up to
      U+00FF (Basic Latin and Latin-1 Supplement); [Js.isLatin1] recognises
      the strings written in that range.
    - A JavaScript [number] that holds a status code or a sequence index is
      an integer in the range where [number] is exact, and is a [Z].
    - A JavaScript object used as a dictionary ([paths], a path item,
      [responses], [content]) is a [gmap string _].
    - An optional property ([x?: T]) is an [option T]; [undefined] is [None].
    - The Reflect metadata side-table is a record of finite maps keyed by the
      target object; targets inherit no metadata through their prototypes.
    - Objects are values: the [content] of one annotation shares no
      media-type object with the [content] of another. *)

From Stdlib Require Import ZArith Ascii Sorting.Sorted Sorting.Permutation.
From stdpp Require Import gmap strings list fin_maps pretty.

Set Warnings "-register-all".
Local Open Scope Z_scope.

(* ===================================================================== *)
(** * JavaScript string primitives *)
(* ===================================================================== *)

Module Js.

(** The character class [[A-Z]]. *)
Definition isUpper (c : ascii) : bool :=
  (65 <=? N_of_ascii c)%N && (N_of_ascii c <=? 90)%N.

(** [String.prototype.toLowerCase] on one ASCII character. *)
Definition lowerChar (c : ascii) : ascii :=
  if isUpper c then ascii_of_N (N_of_ascii c + 32) else c.

(** The byte [0xC3], which leads the UTF-8 form of U+00C0 to U+00FF. *)
Definition isLatin1Lead (c : ascii) : bool :=
  (N_of_ascii c =? 195)%N.

(** The second byte of a capital letter of the Latin-1 Supplement: U+00C0 to
    U+00DE, without the multiplication sign U+00D7. *)
Definition isLatin1UpperTrail (c : ascii) : bool :=
  (128 <=? N_of_ascii c)%N && (N_of_ascii c <=? 158)%N
  && negb (N_of_ascii c =? 151)%N.

(** [toLowerCase] on one byte; [afterLead] tells whether the byte before it
    was [0xC3]. A capital U+00C0 to U+00DE is mapped to the letter 32 code
    points above it, which changes the second byte only. *)
Definition lowerByte (afterLead : bool) (c : ascii) : ascii :=
  if afterLead && isLatin1UpperTrail c then ascii_of_N (N_of_ascii c + 32)
  else lowerChar c.

Fixpoint toLowerCaseFrom (afterLead : bool) (s : string) : string :=
  match s with
  | EmptyString => EmptyString
  | String c s' => String (lowerByte afterLead c) (toLowerCaseFrom (isLatin1Lead c) s')
  end.

(** [s.toLowerCase()]. *)
Definition toLowerCase (s : string) : string := toLowerCaseFrom false s.

(** An ASCII byte, and a string of ASCII bytes. *)
Definition isAsciiChar (c : ascii) : bool := (N_of_ascii c <? 128)%N.

Fixpoint allAscii (s : string) : bool :=
  match s with
  | EmptyString => true
  | String c s' => isAsciiChar c && allAscii s'
  end.

(** The UTF-8 strings over U+0000 to U+00FF: ASCII bytes, and the lead bytes
    [0xC2] and [0xC3] each followed by one continuation byte. *)
Fixpoint isLatin1 (s : string) : bool :=
  match s with
  | EmptyString => true
  | String c s' =>
      if isAsciiChar c then isLatin1 s'
      else if (N_of_ascii c =? 194)%N || (N_of_ascii c =? 195)%N then
        match s' with
        | String t s'' =>
            (128 <=? N_of_ascii t)%N && (N_of_ascii t <=? 191)%N && isLatin1 s''
        | EmptyString => false
        end
      else false
  end.

(** [s.startsWith(w)]. *)
Fixpoint startsWith (s w : string) {struct w} : bool :=
  match w, s with
  | EmptyString, _ => true
  | String _ _, EmptyString => false
  | String a w', String b s' => if decide (a = b) then startsWith s' w' else false
  end.

(** [s.includes(w)]: [w] occurs in [s] at some position. *)
Fixpoint includes (s w : string) : bool :=
  if startsWith s w then true
  else match s with
       | EmptyString => false
       | String _ s' => includes s' w
       end.

(** [s.replace(/<suffix>$/, '')] for a literal, non-empty [suffix]: the
    pattern is anchored at the end of the input, so it matches at the one
    position where the rest of the string is exactly [suffix]. *)
Fixpoint removeSuffix (suffix s : string) : string :=
  if decide (s = suffix) then EmptyString
  else match s with
       | EmptyString => EmptyString
       | String c s' => String c (removeSuffix suffix s')
       end.

(** [s.replace(/([A-Z])/g, '-$1')]: every capital letter is replaced by a
    dash followed by itself. *)
Fixpoint dashBeforeUpper (s : string) : string :=
  match s with
  | EmptyString => EmptyString
  | String c s' =>
      if isUpper c then String "-" (String c (dashBeforeUpper s'))
      else String c (dashBeforeUpper s')
  end.

(** [s.replace(/^-/, '')]: drops one dash at position 0, if there is one. *)
Definition removeLeadingDash (s : string) : string :=
  match s with
  | String "-" s' => s'
  | _ => s
  end.

(** JavaScript truthiness of a string: only [''] is falsy. *)
Definition truthy (s : string) : bool :=
  match s with EmptyString => false | _ => true end.

(** [o || d] on an optional string: [undefined] and [''] select [d]. *)
Definition orElse (o : option string) (d : string) : string :=
  match o with
  | Some s => if truthy s then s else d
  | None => d
  end.

(** [n.toString()] of an integer-valued number. *)
Definition toString (n : Z) : string := pretty n.

End Js.

(* ===================================================================== *)
(** * Inference heuristics ([OpenApiGenerator], private helpers) *)
(* ===================================================================== *)

(** [generatePathFromFunction]. *)
Definition generatePathFromFunction (functionName : string) : string :=
  let pathName :=
    Js.removeLeadingDash
      (Js.toLowerCase
         (Js.dashBeforeUpper
            (Js.removeSuffix "Handler" functionName))) in
  "/" +:+ pathName.

(** [determineHttpMethod]. *)
Definition determineHttpMethod (functionName : string) : string :=
  let lowerName := Js.toLowerCase functionName in
  if Js.includes lowerName "get"
     || Js.includes lowerName "list"
     || Js.includes lowerName "find" then "get"
  else if Js.includes lowerName "post" || Js.includes lowerName "create" then "post"
  else if Js.includes lowerName "put" || Js.includes lowerName "update" then "put"
  else if Js.includes lowerName "delete" || Js.includes lowerName "remove" then "delete"
  else if Js.includes lowerName "patch" then "patch"
  else "get".

(* ===================================================================== *)
(** * Decorator options ([src/types/decorator-options.ts]) *)
(* ===================================================================== *)

(** A value of TypeScript type [any] (examples, enum members). *)
Inductive JsValue : Type :=
| JNull
| JBool (b : bool)
| JNum (n : Z)
| JStr (s : string)
| JArr (items : list JsValue)
| JObj (fields : list (string * JsValue)).

(** [TypeReference = TypeConstructor | string]. A constructor is seen by the
    generator only through [typeof] and its [name] property. *)
Inductive TypeReference : Type :=
| TypeName (s : string)
| TypeConstructor (name : string).

(** Truthiness of a type reference: a class is truthy, a string unless empty. *)
Definition typeRefTruthy (t : TypeReference) : bool :=
  match t with
  | TypeName s => Js.truthy s
  | TypeConstructor _ => true
  end.

Record ApiOperationOptions : Type := {
  op_summary : string;
  op_description : option string;
  op_tags : option (list string);
  op_operationId : option string;
  op_deprecated : option bool;
}.

Record ApiHeaderOptions : Type := {
  hdr_name : option string;
  hdr_description : option string;
  hdr_required : option bool;
  hdr_type : option TypeReference;
  hdr_example : option JsValue;
  hdr_deprecated : option bool;
}.

(** Modelled from the spec: [src/types/openapi.ts] is not part of the
    sources. [SchemaObject] carries the properties the generator writes
    ([type], [items], [description], [enum]). *)
Inductive SchemaObject : Type := {
  schema_type : option string;
  schema_items : option SchemaObject;
  schema_description : option string;
  schema_enum : option (list JsValue);
}.

(** Modelled from the spec: [src/types/openapi.ts] is not part of the
    sources. A media-type object, the value stored under a content type such
    as ['application/json']: a [schema] and an [example]. *)
Record MediaTypeObject : Type := {
  media_schema : option SchemaObject;
  media_example : option JsValue;
}.

Record ApiResponseOptions : Type := {
  status : Z;
  resp_description : option string;
  resp_type : option TypeReference;
  resp_example : option JsValue;
  resp_headers : option (gmap string ApiHeaderOptions);
  resp_content : option (gmap string MediaTypeObject);
}.

Record ApiParamOptions : Type := {
  param_name : string;
  param_description : option string;
  param_required : option bool;
  param_type : option TypeReference;
  param_example : option JsValue;
  param_enum : option (list JsValue);
  param_deprecated : option bool;
}.

(* ===================================================================== *)
(** * Stored metadata ([src/types/internal.ts]) *)
(* ===================================================================== *)

(** [ApiOperationMetadata extends ApiOperationOptions]. *)
Record ApiOperationMetadata : Type := {
  functionName : string;
  operation_options : ApiOperationOptions;
}.

(** [ApiResponseMetadata extends ApiResponseOptions]. *)
Record ApiResponseMetadata : Type := {
  response_options : ApiResponseOptions;
  response_order : Z;
}.

Inductive ParameterLocation : Type := InPath | InQuery | InHeader | InCookie.

(** [ApiParamMetadata extends ApiParamOptions]. *)
Record ApiParamMetadata : Type := {
  param_options : ApiParamOptions;
  param_in : ParameterLocation;
  param_order : Z;
}.

(** The remaining kinds are stored and returned by [MetadataManager] but are
    never read by the generator; each carries its [order]. *)
Record ApiQueryMetadata : Type := {
  query_options : ApiParamOptions;
  query_allowEmptyValue : option bool;
  query_order : Z;
}.

Record ApiBodyMetadata : Type := {
  body_description : option string;
  body_type : option TypeReference;
  body_required : option bool;
  body_example : option JsValue;
  body_content : option (gmap string MediaTypeObject);
  body_order : Z;
}.

Inductive SecuritySchemeType : Type := ApiKey | Http | OAuth2 | OpenIdConnect.

Record ApiSecurityMetadata : Type := {
  sec_type : SecuritySchemeType;
  sec_name : option string;
  sec_in : option string;
  sec_scheme : option string;
  sec_bearerFormat : option string;
  sec_scopes : option (list string);
  sec_openIdConnectUrl : option string;
  sec_description : option string;
  sec_order : Z;
}.

Record ExternalDocs : Type := {
  docs_description : option string;
  docs_url : string;
}.

Record ApiTagMetadata : Type := {
  tag_name : string;
  tag_description : option string;
  tag_externalDocs : option ExternalDocs;
  tag_order : Z;
}.

Record HandlerMetadata : Type := {
  operation : option ApiOperationMetadata;
  responses : list ApiResponseMetadata;
  params : list ApiParamMetadata;
  queries : list ApiQueryMetadata;
  body : option ApiBodyMetadata;
  security : list ApiSecurityMetadata;
  tags : list ApiTagMetadata;
}.

(* ===================================================================== *)
(** * The metadata side-table ([src/utils/metadata.ts]) *)
(* ===================================================================== *)

(** A decorated target: an object with an identity and a [name] property
    (the empty string for an anonymous function). *)
Record FunctionObject : Type := {
  fn_id : positive;
  fn_name : string;
}.

#[global] Instance FunctionObject_eq_dec : EqDecision FunctionObject.
Proof. solve_decision. Defined.

#[global] Instance FunctionObject_countable : Countable FunctionObject :=
  inj_countable'
    (fun f => (fn_id f, fn_name f))
    (fun p => {| fn_id := p.1; fn_name := p.2 |})
    (fun f => match f with Build_FunctionObject _ _ => eq_refl end).

(** [Array.prototype.sort((a, b) => a.order - b.order)]: the comparator is a
    consistent ordering on integers, so the result is the stable sort by
    [order], written here as insertion from the right. *)
Section SortByOrder.
Context {A : Type} (order : A -> Z).

Fixpoint insertByOrder (x : A) (l : list A) : list A :=
  match l with
  | [] => [x]
  | y :: l' =>
      if order x <=? order y then x :: y :: l'
      else y :: insertByOrder x l'
  end.

Definition sortByOrder (l : list A) : list A :=
  foldr insertByOrder [] l.

(** The order the comparator induces. *)
Definition leOrder (a b : A) : Prop := order a <= order b.

End SortByOrder.

(** What [Reflect.defineMetadata] has recorded, one map per metadata key. *)
Record MetadataStore : Type := {
  API_OPERATION : gmap FunctionObject ApiOperationMetadata;
  API_RESPONSES : gmap FunctionObject (list ApiResponseMetadata);
  API_PARAMS : gmap FunctionObject (list ApiParamMetadata);
  API_QUERIES : gmap FunctionObject (list ApiQueryMetadata);
  API_BODY : gmap FunctionObject ApiBodyMetadata;
  API_SECURITY : gmap FunctionObject (list ApiSecurityMetadata);
  API_TAGS : gmap FunctionObject (list ApiTagMetadata);
}.

Definition emptyStore : MetadataStore :=
  {| API_OPERATION := ∅; API_RESPONSES := ∅; API_PARAMS := ∅; API_QUERIES := ∅;
     API_BODY := ∅; API_SECURITY := ∅; API_TAGS := ∅ |}.

(** The constants [METADATA_KEYS] of [src/types/internal.ts]. *)
Module METADATA_KEYS.
Definition API_OPERATION : string := "lambda-openapi:operation".
Definition API_RESPONSES : string := "lambda-openapi:responses".
Definition API_PARAMS : string := "lambda-openapi:params".
Definition API_QUERIES : string := "lambda-openapi:queries".
Definition API_BODY : string := "lambda-openapi:body".
Definition API_SECURITY : string := "lambda-openapi:security".
Definition API_TAGS : string := "lambda-openapi:tags".
End METADATA_KEYS.

Module MetadataManager.

Definition setOperation (target : FunctionObject) (metadata : ApiOperationMetadata)
    (s : MetadataStore) : MetadataStore :=
  {| API_OPERATION := <[target := metadata]> (API_OPERATION s);
     API_RESPONSES := API_RESPONSES s; API_PARAMS := API_PARAMS s;
     API_QUERIES := API_QUERIES s; API_BODY := API_BODY s;
     API_SECURITY := API_SECURITY s; API_TAGS := API_TAGS s |}.

Definition getOperation (s : MetadataStore) (target : FunctionObject)
    : option ApiOperationMetadata :=
  API_OPERATION s !! target.

Definition getResponses (s : MetadataStore) (target : FunctionObject)
    : list ApiResponseMetadata :=
  default [] (API_RESPONSES s !! target).

Definition addResponse (target : FunctionObject) (metadata : ApiResponseMetadata)
    (s : MetadataStore) : MetadataStore :=
  let existing := getResponses s target in
  let updated := sortByOrder response_order (existing ++ [metadata]) in
  {| API_OPERATION := API_OPERATION s;
     API_RESPONSES := <[target := updated]> (API_RESPONSES s);
     API_PARAMS := API_PARAMS s;
     API_QUERIES := API_QUERIES s; API_BODY := API_BODY s;
     API_SECURITY := API_SECURITY s; API_TAGS := API_TAGS s |}.

Definition getParams (s : MetadataStore) (target : FunctionObject)
    : list ApiParamMetadata :=
  default [] (API_PARAMS s !! target).

Definition addParam (target : FunctionObject) (metadata : ApiParamMetadata)
    (s : MetadataStore) : MetadataStore :=
  let existing := getParams s target in
  let updated := sortByOrder param_order (existing ++ [metadata]) in
  {| API_OPERATION := API_OPERATION s; API_RESPONSES := API_RESPONSES s;
     API_PARAMS := <[target := updated]> (API_PARAMS s);
     API_QUERIES := API_QUERIES s; API_BODY := API_BODY s;
     API_SECURITY := API_SECURITY s; API_TAGS := API_TAGS s |}.

Definition getQueries (s : MetadataStore) (target : FunctionObject)
    : list ApiQueryMetadata :=
  default [] (API_QUERIES s !! target).

Definition addQuery (target : FunctionObject) (metadata : ApiQueryMetadata)
    (s : MetadataStore) : MetadataStore :=
  let existing := getQueries s target in
  let updated := sortByOrder query_order (existing ++ [metadata]) in
  {| API_OPERATION := API_OPERATION s; API_RESPONSES := API_RESPONSES s;
     API_PARAMS := API_PARAMS s;
     API_QUERIES := <[target := updated]> (API_QUERIES s);
     API_BODY := API_BODY s;
     API_SECURITY := API_SECURITY s; API_TAGS := API_TAGS s |}.

Definition setBody (target : FunctionObject) (metadata : ApiBodyMetadata)
    (s : MetadataStore) : MetadataStore :=
  {| API_OPERATION := API_OPERATION s; API_RESPONSES := API_RESPONSES s;
     API_PARAMS := API_PARAMS s; API_QUERIES := API_QUERIES s;
     API_BODY := <[target := metadata]> (API_BODY s);
     API_SECURITY := API_SECURITY s; API_TAGS := API_TAGS s |}.

Definition getBody (s : MetadataStore) (target : FunctionObject)
    : option ApiBodyMetadata :=
  API_BODY s !! target.

Definition getSecurity (s : MetadataStore) (target : FunctionObject)
    : list ApiSecurityMetadata :=
  default [] (API_SECURITY s !! target).

Definition addSecurity (target : FunctionObject) (metadata : ApiSecurityMetadata)
    (s : MetadataStore) : MetadataStore :=
  let existing := getSecurity s target in
  let updated := sortByOrder sec_order (existing ++ [metadata]) in
  {| API_OPERATION := API_OPERATION s; API_RESPONSES := API_RESPONSES s;
     API_PARAMS := API_PARAMS s; API_QUERIES := API_QUERIES s;
     API_BODY := API_BODY s;
     API_SECURITY := <[target := updated]> (API_SECURITY s);
     API_TAGS := API_TAGS s |}.

Definition getTags (s : MetadataStore) (target : FunctionObject)
    : list ApiTagMetadata :=
  default [] (API_TAGS s !! target).

Definition addTag (target : FunctionObject) (metadata : ApiTagMetadata)
    (s : MetadataStore) : MetadataStore :=
  let existing := getTags s target in
  let updated := sortByOrder tag_order (existing ++ [metadata]) in
  {| API_OPERATION := API_OPERATION s; API_RESPONSES := API_RESPONSES s;
     API_PARAMS := API_PARAMS s; API_QUERIES := API_QUERIES s;
     API_BODY := API_BODY s; API_SECURITY := API_SECURITY s;
     API_TAGS := <[target := updated]> (API_TAGS s) |}.

Definition getHandlerMetadata (s : MetadataStore) (target : FunctionObject)
    : HandlerMetadata :=
  {| operation := getOperation s target;
     responses := getResponses s target;
     params := getParams s target;
     queries := getQueries s target;
     body := getBody s target;
     security := getSecurity s target;
     tags := getTags s target |}.

Definition hasMetadata (s : MetadataStore) (target : FunctionObject) : bool :=
  bool_decide (getOperation s target <> None)
  || (0 <? length (getResponses s target))%nat
  || (0 <? length (getParams s target))%nat
  || (0 <? length (getQueries s target))%nat
  || bool_decide (getBody s target <> None)
  || (0 <? length (getSecurity s target))%nat
  || (0 <? length (getTags s target))%nat.

Definition clearMetadata (target : FunctionObject) (s : MetadataStore)
    : MetadataStore :=
  {| API_OPERATION := delete target (API_OPERATION s);
     API_RESPONSES := delete target (API_RESPONSES s);
     API_PARAMS := delete target (API_PARAMS s);
     API_QUERIES := delete target (API_QUERIES s);
     API_BODY := delete target (API_BODY s);
     API_SECURITY := delete target (API_SECURITY s);
     API_TAGS := delete target (API_TAGS s) |}.

(** [getExistingMetadataKeys]: the keys are pushed in this fixed order. *)
Definition getExistingMetadataKeys (s : MetadataStore) (target : FunctionObject)
    : list string :=
  (if getOperation s target is Some _ then [METADATA_KEYS.API_OPERATION] else [])
  ++ (if (0 <? length (getResponses s target))%nat
      then [METADATA_KEYS.API_RESPONSES] else [])
  ++ (if (0 <? length (getParams s target))%nat
      then [METADATA_KEYS.API_PARAMS] else [])
  ++ (if (0 <? length (getQueries s target))%nat
      then [METADATA_KEYS.API_QUERIES] else [])
  ++ (if getBody s target is Some _ then [METADATA_KEYS.API_BODY] else [])
  ++ (if (0 <? length (getSecurity s target))%nat
      then [METADATA_KEYS.API_SECURITY] else [])
  ++ (if (0 <? length (getTags s target))%nat
      then [METADATA_KEYS.API_TAGS] else []).

End MetadataManager.

(* ===================================================================== *)
(** * Decorators ([src/decorators]) *)
(* ===================================================================== *)

(** The module-level counters [responseOrder] and [paramOrder] together with
    the side-table: the state the decorators act on. *)
Record Runtime : Type := {
  responseOrder : Z;
  paramOrder : Z;
  metadataStore : MetadataStore;
}.

Definition initialRuntime : Runtime :=
  {| responseOrder := 0; paramOrder := 0; metadataStore := emptyStore |}.

(** A property descriptor, of which the decorators read [value] only. *)
Record PropertyDescriptor : Type := {
  descriptor_value : option FunctionObject;
}.

(** [descriptor?.value || target]. *)
Definition targetFunctionOf (target : FunctionObject)
    (descriptor : option PropertyDescriptor) : FunctionObject :=
  match descriptor with
  | Some d => default target (descriptor_value d)
  | None => target
  end.

(** [ApiOperation(options)(target, propertyKey, descriptor)]. The value the
    decorator returns (the descriptor or the target) carries no state and is
    left out. *)
Definition ApiOperation (options : ApiOperationOptions)
    (target : FunctionObject) (propertyKey : option string)
    (descriptor : option PropertyDescriptor) (rt : Runtime) : Runtime :=
  let functionName :=
    match propertyKey with
    | Some k => if Js.truthy k then k else Js.orElse (Some (fn_name target)) "anonymous"
    | None => Js.orElse (Some (fn_name target)) "anonymous"
    end in
  let metadata :=
    {| functionName := functionName;
       operation_options :=
         {| op_summary := op_summary options;
            op_description := op_description options;
            op_tags := op_tags options;
            op_operationId := op_operationId options;
            op_deprecated := op_deprecated options |} |} in
  let targetFunction := targetFunctionOf target descriptor in
  {| responseOrder := responseOrder rt;
     paramOrder := paramOrder rt;
     metadataStore :=
       MetadataManager.setOperation targetFunction metadata (metadataStore rt) |}.

(** [ApiResponse(options)(target, propertyKey, descriptor)]. *)
Definition ApiResponse (options : ApiResponseOptions)
    (target : FunctionObject) (propertyKey : option string)
    (descriptor : option PropertyDescriptor) (rt : Runtime) : Runtime :=
  let metadata :=
    {| response_options :=
         {| status := status options;
            resp_description := resp_description options;
            resp_type := resp_type options;
            resp_example := resp_example options;
            resp_headers := resp_headers options;
            resp_content := resp_content options |};
       response_order := responseOrder rt |} in
  let targetFunction := targetFunctionOf target descriptor in
  {| responseOrder := responseOrder rt + 1;
     paramOrder := paramOrder rt;
     metadataStore :=
       MetadataManager.addResponse targetFunction metadata (metadataStore rt) |}.

(** [ApiParam(options)(target, propertyKey, descriptor)]. *)
Definition ApiParam (options : ApiParamOptions)
    (target : FunctionObject) (propertyKey : option string)
    (descriptor : option PropertyDescriptor) (rt : Runtime) : Runtime :=
  let metadata :=
    {| param_options :=
         {| param_name := param_name options;
            param_description := param_description options;
            param_required :=
              Some (match param_required options with Some r => r | None => true end);
            param_type := param_type options;
            param_example := param_example options;
            param_enum := param_enum options;
            param_deprecated := param_deprecated options |};
       param_in := InPath;
       param_order := paramOrder rt |} in
  let targetFunction := targetFunctionOf target descriptor in
  {| responseOrder := responseOrder rt;
     paramOrder := paramOrder rt + 1;
     metadataStore :=
       MetadataManager.addParam targetFunction metadata (metadataStore rt) |}.

(** [getApiResponses(target)]. *)
Definition getApiResponses (store : MetadataStore) (target : FunctionObject)
    : list ApiResponseMetadata :=
  MetadataManager.getResponses store target.

(** [getApiResponse(target, status)]: [Array.prototype.find] returns the
    first element that satisfies the predicate. *)
Definition getApiResponse (store : MetadataStore) (target : FunctionObject) (st : Z)
    : option ApiResponseMetadata :=
  find (fun response => bool_decide (status (response_options response) = st))
       (MetadataManager.getResponses store target).

(** [resetResponseOrder()] and [resetParamOrder()]. *)
Definition resetResponseOrder (rt : Runtime) : Runtime :=
  {| responseOrder := 0; paramOrder := paramOrder rt;
     metadataStore := metadataStore rt |}.

Definition resetParamOrder (rt : Runtime) : Runtime :=
  {| responseOrder := responseOrder rt; paramOrder := 0;
     metadataStore := metadataStore rt |}.

(** [hasApiOperation(target)] and [getApiOperation(target)]. *)
Definition hasApiOperation (store : MetadataStore) (target : FunctionObject) : bool :=
  bool_decide (MetadataManager.getOperation store target <> None).

Definition getApiOperation (store : MetadataStore) (target : FunctionObject)
    : option ApiOperationMetadata :=
  MetadataManager.getOperation store target.

(** [hasApiResponse(target)]. *)
Definition hasApiResponse (store : MetadataStore) (target : FunctionObject) : bool :=
  (0 <? length (MetadataManager.getResponses store target))%nat.

(** [hasApiParam(target)], [getApiParams(target)] and
    [getApiParam(target, name)]. *)
Definition hasApiParam (store : MetadataStore) (target : FunctionObject) : bool :=
  (0 <? length (MetadataManager.getParams store target))%nat.

Definition getApiParams (store : MetadataStore) (target : FunctionObject)
    : list ApiParamMetadata :=
  MetadataManager.getParams store target.

Definition getApiParam (store : MetadataStore) (target : FunctionObject)
    (name : string) : option ApiParamMetadata :=
  find (fun param => bool_decide (param_name (param_options param) = name))
       (MetadataManager.getParams store target).

(** One decorator application, as data, so that whole annotation histories
    can be quantified over. *)
Inductive Annotation : Type :=
| AnnOperation (options : ApiOperationOptions)
| AnnResponse (options : ApiResponseOptions)
| AnnParam (options : ApiParamOptions).

Record Application : Type := {
  app_annotation : Annotation;
  app_target : FunctionObject;
  app_propertyKey : option string;
  app_descriptor : option PropertyDescriptor;
}.

Definition apply (rt : Runtime) (a : Application) : Runtime :=
  match app_annotation a with
  | AnnOperation o => ApiOperation o (app_target a) (app_propertyKey a) (app_descriptor a) rt
  | AnnResponse o => ApiResponse o (app_target a) (app_propertyKey a) (app_descriptor a) rt
  | AnnParam o => ApiParam o (app_target a) (app_propertyKey a) (app_descriptor a) rt
  end.

(** Applying a history of annotations, oldest first. *)
Definition applyAll (rt : Runtime) (history : list Application) : Runtime :=
  foldl apply rt history.

(** The response options a history applies to the function [f], oldest first. *)
Definition responsesAppliedTo (f : FunctionObject) (history : list Application)
    : list ApiResponseOptions :=
  omap (fun a =>
          match app_annotation a with
          | AnnResponse o =>
              if decide (targetFunctionOf (app_target a) (app_descriptor a) = f)
              then Some o else None
          | _ => None
          end) history.

(* ===================================================================== *)
(** * Generator configuration ([src/types/config.ts]) *)
(* ===================================================================== *)

Record ContactObject : Type := {
  contact_name : option string;
  contact_url : option string;
  contact_email : option string;
}.

Record LicenseObject : Type := {
  license_name : string;
  license_url : option string;
}.

Record InfoObject : Type := {
  title : string;
  version : string;
  info_description : option string;
  termsOfService : option string;
  contact : option ContactObject;
  license : option LicenseObject;
}.

Record ServerObject : Type := {
  server_url : string;
  server_description : option string;
}.

Record TagObject : Type := {
  tagobj_name : string;
  tagobj_description : option string;
  tagobj_externalDocs : option ExternalDocs;
}.

(** The part of [GeneratorConfig] the generator reads, and [inputPaths];
    [outputPath], [format], [basePath] and [options] belong to the
    command-line front end. *)
Record GeneratorConfig : Type := {
  inputPaths : list string;
  info : InfoObject;
  servers : option (list ServerObject);
  config_security : option (list (gmap string (list string)));
  config_tags : option (list TagObject);
  externalDocs : option ExternalDocs;
}.

(* ===================================================================== *)
(** * The OpenAPI document ([src/types/openapi.ts]) *)
(* ===================================================================== *)

(** Modelled from the spec: [src/types/openapi.ts] is not part of the
    sources. The response object the generator builds. *)
Record ResponseObject : Type := {
  response_description : string;
  response_content : option (gmap string MediaTypeObject);
}.

(** Modelled from the spec: [src/types/openapi.ts] is not part of the
    sources. The parameter object the generator builds. *)
Record ParameterObject : Type := {
  parameter_name : string;
  parameter_in : ParameterLocation;
  parameter_required : option bool;
  parameter_description : option string;
  parameter_deprecated : option bool;
  parameter_example : option JsValue;
  parameter_schema : option SchemaObject;
}.

(** Modelled from the spec: [src/types/openapi.ts] is not part of the
    sources. The operation object the generator builds. *)
Record OperationObject : Type := {
  operation_responses : gmap string ResponseObject;
  operation_summary : option string;
  operation_description : option string;
  operation_tags : option (list string);
  operation_operationId : option string;
  operation_deprecated : option bool;
  operation_parameters : option (list ParameterObject);
}.

(** Modelled from the spec: [src/types/openapi.ts] is not part of the
    sources. A path item holds one operation per HTTP method name. *)
Abbreviation PathItemObject := (gmap string OperationObject).

(** Modelled from the spec: [src/types/openapi.ts] is not part of the
    sources. The assembled document. *)
Record OpenAPISpec : Type := {
  openapi : string;
  spec_info : InfoObject;
  paths : gmap string PathItemObject;
  spec_servers : option (list ServerObject);
  spec_security : option (list (gmap string (list string)));
  spec_tags : option (list TagObject);
  spec_externalDocs : option ExternalDocs;
  components : option (gmap string JsValue);
}.

(* ===================================================================== *)
(** * The generator ([src/generator/openapi-generator.ts]) *)
(* ===================================================================== *)

Module OpenApiGenerator.

(** The object literal [{ type: t }]. *)
Definition primitiveSchema (t : string) : SchemaObject :=
  {| schema_type := Some t; schema_items := None;
     schema_description := None; schema_enum := None |}.

(** [generateSchemaFromStringType]; the [switch] compares with [===]. *)
Definition generateSchemaFromStringType (type : string) : SchemaObject :=
  if decide (type = "string") then primitiveSchema "string"
  else if decide (type = "number") then primitiveSchema "number"
  else if decide (type = "integer") then primitiveSchema "integer"
  else if decide (type = "boolean") then primitiveSchema "boolean"
  else if decide (type = "array") then
    {| schema_type := Some "array"; schema_items := Some (primitiveSchema "string");
       schema_description := None; schema_enum := None |}
  else if decide (type = "object") then primitiveSchema "object"
  else primitiveSchema "string".

(** [generateSchemaFromType]. Every [TypeReference] is a string or a
    function, so the closing [return { type: 'object' }] is not reached. *)
Definition generateSchemaFromType (typeRef : TypeReference) : SchemaObject :=
  match typeRef with
  | TypeName s => generateSchemaFromStringType s
  | TypeConstructor name =>
      {| schema_type := Some "object"; schema_items := None;
         schema_description := Some ("Schema for " +:+ name);
         schema_enum := None |}
  end.

(** [generateParameter]. *)
Definition generateParameter (paramMetadata : ApiParamMetadata) : ParameterObject :=
  let o := param_options paramMetadata in
  let schema1 :=
    match param_type o with
    | Some t => if typeRefTruthy t then Some (generateSchemaFromType t) else None
    | None => None
    end in
  let schema2 :=
    match param_enum o with
    | Some e =>
        match schema1 with
        | Some s =>
            Some {| schema_type := schema_type s; schema_items := schema_items s;
                    schema_description := schema_description s;
                    schema_enum := Some e |}
        | None =>
            Some {| schema_type := None; schema_items := None;
                    schema_description := None; schema_enum := Some e |}
        end
    | None => schema1
    end in
  {| parameter_name := param_name o;
     parameter_in := param_in paramMetadata;
     parameter_required := param_required o;
     parameter_description :=
       match param_description o with
       | Some d => if Js.truthy d then Some d else None
       | None => None
       end;
     parameter_deprecated :=
       match param_deprecated o with
       | Some true => Some true
       | _ => None
       end;
     parameter_example := param_example o;
     parameter_schema := schema2 |}.

(** The body of the [forEach] callback of [generateResponses]: the response
    object built for one metadata entry. [content3] is the content after the
    assignment [response.content['application/json'].example = ...]; with a
    custom [content] the assigned media-type object is the one of the
    annotation, which the embedding holds by value. *)
Definition generateResponse (responseMeta : ApiResponseMetadata) : ResponseObject :=
  let o := response_options responseMeta in
  let statusCode := Js.toString (status o) in
  let content1 :=
    match resp_type o with
    | Some t =>
        if typeRefTruthy t
        then Some {[ "application/json" :=
                       {| media_schema := Some (generateSchemaFromType t);
                          media_example := None |} ]}
        else None
    | None => None
    end in
  let content2 :=
    match resp_content o with
    | Some c => Some c
    | None => content1
    end in
  let content3 :=
    match resp_example o, content2 with
    | Some e, Some c =>
        match c !! "application/json" with
        | Some m =>
            Some (<[ "application/json" :=
                       {| media_schema := media_schema m; media_example := Some e |} ]> c)
        | None => content2
        end
    | _, _ => content2
    end in
  {| response_description :=
       Js.orElse (resp_description o) ("Response " +:+ statusCode);
     response_content := content3 |}.

(** The object [responses] after the [forEach] of [generateResponses]. *)
Definition collectResponses (responseMetadata : list ApiResponseMetadata)
    : gmap string ResponseObject :=
  foldl (fun responses responseMeta =>
           <[ Js.toString (status (response_options responseMeta))
              := generateResponse responseMeta ]> responses)
        ∅ responseMetadata.

Definition defaultResponse : ResponseObject :=
  {| response_description := "Successful response"; response_content := None |}.

(** [generateResponses]. *)
Definition generateResponses (responseMetadata : list ApiResponseMetadata)
    : gmap string ResponseObject :=
  let responses := collectResponses responseMetadata in
  if decide (size responses = 0%nat)
  then <[ "200" := defaultResponse ]> responses
  else responses.

(** [generateOperation]. *)
Definition generateOperation (metadata : HandlerMetadata) : OperationObject :=
  let o := operation_options <$> operation metadata in
  {| operation_responses := generateResponses (responses metadata);
     operation_summary := op_summary <$> o;
     operation_description := o ≫= op_description;
     operation_tags := o ≫= op_tags;
     operation_operationId := o ≫= op_operationId;
     operation_deprecated := o ≫= op_deprecated;
     operation_parameters :=
       if decide (0 < length (params metadata))%nat
       then Some (generateParameter <$> params metadata)
       else None |}.

(** The body of the [forEach] callback of [generatePaths]. *)
Definition addHandler (store : MetadataStore)
    (paths : gmap string PathItemObject) (handler : FunctionObject)
    : gmap string PathItemObject :=
  let metadata := MetadataManager.getHandlerMetadata store handler in
  match operation metadata with
  | None => paths
  | Some op =>
      let path := generatePathFromFunction (functionName op) in
      let operation := generateOperation metadata in
      let method := determineHttpMethod (functionName op) in
      let paths1 :=
        match paths !! path with
        | None => <[ path := ∅ ]> paths
        | Some _ => paths
        end in
      alter (fun item => <[ method := operation ]> item) path paths1
  end.

(** [generatePaths]. *)
Definition generatePaths (store : MetadataStore) (handlers : list FunctionObject)
    : gmap string PathItemObject :=
  foldl (addHandler store) ∅ handlers.

(** [generateComponents]. *)
Definition generateComponents (handlers : list FunctionObject)
    : gmap string JsValue := ∅.

(** [generateSpec]. *)
Definition generateSpec (config : GeneratorConfig) (store : MetadataStore)
    (handlers : list FunctionObject) : OpenAPISpec :=
  {| openapi := "3.0.0";
     spec_info := info config;
     paths := generatePaths store handlers;
     spec_servers := servers config;
     spec_security := config_security config;
     spec_tags := config_tags config;
     spec_externalDocs := externalDocs config;
     components := Some (generateComponents handlers) |}.

End OpenApiGenerator.

(** [generateOpenApiSpec]. *)
Definition generateOpenApiSpec (config : GeneratorConfig) (store : MetadataStore)
    (handlers : list FunctionObject) : OpenAPISpec :=
  OpenApiGenerator.generateSpec config store handlers.

(* ===================================================================== *)
(** * The rules as the specification words them *)
(* ===================================================================== *)

(** Stripping a trailing [Handler] suffix, as a relation between a name and
    its stem. *)
Inductive StripHandler : string -> string -> Prop :=
| strip_suffix (stem : string) : StripHandler (stem +:+ "Handler") stem
| strip_nothing (name : string) :
    (forall stem, name <> stem +:+ "Handler") -> StripHandler name name.

(** The capital letters of the rule as the code applies it: A to Z. *)
Definition capitalLetters : list ascii :=
  [ "A"; "B"; "C"; "D"; "E"; "F"; "G"; "H"; "I"; "J"; "K"; "L"; "M";
    "N"; "O"; "P"; "Q"; "R"; "S"; "T"; "U"; "V"; "W"; "X"; "Y"; "Z" ]%char.

Definition isCapitalAZ (c : ascii) : bool := bool_decide (c ∈ capitalLetters).

(** A character, with a separator in front of it when it is a capital. *)
Definition withSeparator (c : ascii) : string :=
  if isCapitalAZ c then String "-" (String c "") else String c "".

Fixpoint separateEach (s : string) : string :=
  match s with
  | EmptyString => EmptyString
  | String c s' => withSeparator c +:+ separateEach s'
  end.

(** A separator before each internal capital letter: every capital except
    one at the very start of the name. *)
Definition separateInternal (s : string) : string :=
  match s with
  | EmptyString => EmptyString
  | String c s' => String c (separateEach s')
  end.

(** Stripping a leading separator, if there is one. *)
Definition stripLeadingSeparator (s : string) : string :=
  match s with
  | EmptyString => EmptyString
  | String c s' => if Ascii.eqb c "-" then s' else s
  end.

(** The path derived from a stem, with A to Z as the capital letters. *)
Definition specPath (stem : string) : string :=
  "/" +:+ stripLeadingSeparator (Js.toLowerCase (separateInternal stem)).

(** The rule read with every capitalized letter: besides A to Z, the capital
    letters of the Latin-1 Supplement, two bytes each in UTF-8. *)
Definition isCapitalLatin1 (lead trail : ascii) : bool :=
  bool_decide (lead = "195"%char)
  && (128 <=? N_of_ascii trail)%N && (N_of_ascii trail <=? 158)%N
  && negb (N_of_ascii trail =? 151)%N.

Fixpoint claimedSeparateEach (s : string) : string :=
  match s with
  | EmptyString => EmptyString
  | String c s' =>
      if isCapitalAZ c then String "-" (String c (claimedSeparateEach s'))
      else match s' with
           | String t s'' =>
               if isCapitalLatin1 c t
               then String "-" (String c (String t (claimedSeparateEach s'')))
               else String c (claimedSeparateEach s')
           | EmptyString => String c EmptyString
           end
  end.

Definition claimedSeparateInternal (s : string) : string :=
  match s with
  | EmptyString => EmptyString
  | String c EmptyString => s
  | String c (String t s'' as s') =>
      if isCapitalLatin1 c t then String c (String t (claimedSeparateEach s''))
      else String c (claimedSeparateEach s')
  end.

(** The path the claim derives from a stem when every capitalized letter
    counts. *)
Definition claimedPath (stem : string) : string :=
  "/" +:+ stripLeadingSeparator (Js.toLowerCase (claimedSeparateInternal stem)).

(** The word [w] occurs in [name] when letter case is ignored. *)
Definition occursIgnoringCase (w name : string) : Prop :=
  exists pre mid post, name = pre +:+ mid +:+ post /\ Js.toLowerCase mid = w.

(** The method rules in their precedence order: each rule applies only when
    no earlier rule does. *)
Inductive MethodRule (name : string) : string -> Prop :=
| rule_get :
    occursIgnoringCase "get" name \/ occursIgnoringCase "list" name
      \/ occursIgnoringCase "find" name ->
    MethodRule name "get"
| rule_post :
    ~ (occursIgnoringCase "get" name \/ occursIgnoringCase "list" name
       \/ occursIgnoringCase "find" name) ->
    occursIgnoringCase "post" name \/ occursIgnoringCase "create" name ->
    MethodRule name "post"
| rule_put :
    ~ (occursIgnoringCase "get" name \/ occursIgnoringCase "list" name
       \/ occursIgnoringCase "find" name) ->
    ~ (occursIgnoringCase "post" name \/ occursIgnoringCase "create" name) ->
    occursIgnoringCase "put" name \/ occursIgnoringCase "update" name ->
    MethodRule name "put"
| rule_delete :
    ~ (occursIgnoringCase "get" name \/ occursIgnoringCase "list" name
       \/ occursIgnoringCase "find" name) ->
    ~ (occursIgnoringCase "post" name \/ occursIgnoringCase "create" name) ->
    ~ (occursIgnoringCase "put" name \/ occursIgnoringCase "update" name) ->
    occursIgnoringCase "delete" name \/ occursIgnoringCase "remove" name ->
    MethodRule name "delete"
| rule_patch :
    ~ (occursIgnoringCase "get" name \/ occursIgnoringCase "list" name
       \/ occursIgnoringCase "find" name) ->
    ~ (occursIgnoringCase "post" name \/ occursIgnoringCase "create" name) ->
    ~ (occursIgnoringCase "put" name \/ occursIgnoringCase "update" name) ->
    ~ (occursIgnoringCase "delete" name \/ occursIgnoringCase "remove" name) ->
    occursIgnoringCase "patch" name ->
    MethodRule name "patch"
| rule_default :
    ~ (occursIgnoringCase "get" name \/ occursIgnoringCase "list" name
       \/ occursIgnoringCase "find" name) ->
    ~ (occursIgnoringCase "post" name \/ occursIgnoringCase "create" name) ->
    ~ (occursIgnoringCase "put" name \/ occursIgnoringCase "update" name) ->
    ~ (occursIgnoringCase "delete" name \/ occursIgnoringCase "remove" name) ->
    ~ occursIgnoringCase "patch" name ->
    MethodRule name "get".

(* ===================================================================== *)
(** * Derived notions and the handlers of the scenarios *)
(* ===================================================================== *)

Import MetadataManager OpenApiGenerator.

(** The entries stored for [f] carry strictly increasing indices, all below
    the counter. *)
Definition ResponsesInOrder (rt : Runtime) (f : FunctionObject) : Prop :=
  StronglySorted (fun a b => response_order a < response_order b)
                 (getResponses (metadataStore rt) f)
  /\ Forall (fun a => response_order a < responseOrder rt)
            (getResponses (metadataStore rt) f).

(** A response annotation with a status and a description only. *)
Definition plainResponse (st : Z) (d : string) : ApiResponseOptions :=
  {| status := st; resp_description := Some d; resp_type := None;
     resp_example := None; resp_headers := None; resp_content := None |}.

(** A decorator applied to a plain function: no property key, no descriptor. *)
Definition onFunction (ann : Annotation) (f : FunctionObject) : Application :=
  {| app_annotation := ann; app_target := f;
     app_propertyKey := None; app_descriptor := None |}.

(** The targets of the unit tests of the response decorator. *)
Definition testFunction : FunctionObject :=
  {| fn_id := 1; fn_name := "testFunction" |}.

Definition anotherHandler : FunctionObject :=
  {| fn_id := 2; fn_name := "anotherHandler" |}.

(** Responses applied in an order that is not the order of their status
    codes, with an annotation of another handler in between. *)
Definition outOfStatusOrder : list Application :=
  [ onFunction (AnnResponse (plainResponse 500 "Server error")) testFunction;
    onFunction (AnnResponse (plainResponse 201 "Created")) anotherHandler;
    onFunction (AnnResponse (plainResponse 200 "Success")) testFunction;
    onFunction (AnnResponse (plainResponse 404 "Not found")) testFunction ].

(** Two entries for status 200 whose indices run against the order in which
    they are added. *)
Definition firstSuccess : ApiResponseMetadata :=
  {| response_options := plainResponse 200 "First success response";
     response_order := 1 |}.

Definition secondSuccess : ApiResponseMetadata :=
  {| response_options := plainResponse 200 "Second success response";
     response_order := 0 |}.

(** The key under which a metadata entry is recorded. *)
Definition responseKey (r : ApiResponseMetadata) : string :=
  Js.toString (status (response_options r)).

(** One step of the [forEach] of [generateResponses]. *)
Definition recordResponse (responses : gmap string ResponseObject)
    (r : ApiResponseMetadata) : gmap string ResponseObject :=
  <[ responseKey r := generateResponse r ]> responses.

(** [paths[path][method]], when both exist. *)
Definition operationAt (paths : gmap string PathItemObject) (path method : string)
    : option OperationObject :=
  paths !! path ≫= fun item => item !! method.

(** What a handler writes into [paths]: nothing without operation metadata,
    otherwise an operation at its inferred path and method. *)
Definition contribution (store : MetadataStore) (handler : FunctionObject)
    : option (string * string * OperationObject) :=
  match getOperation store handler with
  | None => None
  | Some op =>
      Some (generatePathFromFunction (functionName op),
            determineHttpMethod (functionName op),
            generateOperation (getHandlerMetadata store handler))
  end.

(** The handler and the configuration of the end-to-end scenario. *)
Definition getUserHandler : FunctionObject :=
  {| fn_id := 10; fn_name := "getUserHandler" |}.

Definition userApiConfig : GeneratorConfig :=
  {| inputPaths := [];
     info := {| title := "User API"; version := "1.0.0";
                info_description := None; termsOfService := None;
                contact := None; license := None |};
     servers := None; config_security := None; config_tags := None;
     externalDocs := None |}.

(** The annotations of the scenario; what the scenario leaves open (the
    descriptions and the remaining operation options) is a parameter. *)
Definition getUserAnnotations (opDescription : option string)
    (opTags : option (list string)) (opId : option string)
    (opDeprecated : option bool) (paramDescription d200 d404 : option string)
    : list Application :=
  [ onFunction
      (AnnOperation {| op_summary := "Get user by ID";
                       op_description := opDescription; op_tags := opTags;
                       op_operationId := opId; op_deprecated := opDeprecated |})
      getUserHandler;
    onFunction
      (AnnParam {| param_name := "userId"; param_description := paramDescription;
                   param_required := Some true;
                   param_type := Some (TypeName "string");
                   param_example := None; param_enum := None;
                   param_deprecated := None |})
      getUserHandler;
    onFunction
      (AnnResponse {| status := 200; resp_description := d200;
                      resp_type := Some (TypeName "object");
                      resp_example := None; resp_headers := None;
                      resp_content := None |})
      getUserHandler;
    onFunction
      (AnnResponse {| status := 404; resp_description := d404;
                      resp_type := None; resp_example := None;
                      resp_headers := None; resp_content := None |})
      getUserHandler ].

(** An operation annotation with a summary only. *)
Definition summaryOnly (summary : string) : ApiOperationOptions :=
  {| op_summary := summary; op_description := None; op_tags := None;
     op_operationId := None; op_deprecated := None |}.

(** Further handlers: [GetUser] resolves to the path and method of
    [getUserHandler]. *)
Definition GetUser : FunctionObject := {| fn_id := 11; fn_name := "GetUser" |}.

Definition createUserHandler : FunctionObject :=
  {| fn_id := 12; fn_name := "createUserHandler" |}.

Definition handlerWithoutDecorators : FunctionObject :=
  {| fn_id := 13; fn_name := "handlerWithoutDecorators" |}.

(** [getUserHandler] and [GetUser] both resolve to [GET /get-user]. *)
Definition collidingStore : MetadataStore :=
  metadataStore
    (applyAll initialRuntime
       [ onFunction (AnnOperation (summaryOnly "First")) getUserHandler;
         onFunction (AnnOperation (summaryOnly "Second")) GetUser;
         onFunction (AnnOperation (summaryOnly "Create")) createUserHandler ]).

(** Three responses on one handler, two of them for status 200. *)
Definition duplicateResponses : list Application :=
  [ onFunction (AnnOperation (summaryOnly "Get user by ID")) getUserHandler;
    onFunction (AnnResponse (plainResponse 200 "First success response")) getUserHandler;
    onFunction (AnnResponse (plainResponse 200 "Second success response")) getUserHandler;
    onFunction (AnnResponse (plainResponse 404 "Not found")) getUserHandler ].

(** The store after [duplicateResponses]. *)
Definition duplicateStore : MetadataStore :=
  metadataStore (applyAll initialRuntime duplicateResponses).

(** The parameter options a history applies to the function [f], oldest
    first. *)
Definition paramsAppliedTo (f : FunctionObject) (history : list Application)
    : list ApiParamOptions :=
  omap (fun a =>
          match app_annotation a with
          | AnnParam o =>
              if decide (targetFunctionOf (app_target a) (app_descriptor a) = f)
              then Some o else None
          | _ => None
          end) history.

(** Parameter options as [ApiParam] stores them: [required] is filled in. *)
Definition withRequiredDefault (o : ApiParamOptions) : ApiParamOptions :=
  {| param_name := param_name o;
     param_description := param_description o;
     param_required :=
       Some (match param_required o with Some r => r | None => true end);
     param_type := param_type o;
     param_example := param_example o;
     param_enum := param_enum o;
     param_deprecated := param_deprecated o |}.

(** The entries stored for [f] as parameters carry strictly increasing
    indices, all below the parameter counter. *)
Definition ParamsInOrder (rt : Runtime) (f : FunctionObject) : Prop :=
  StronglySorted (fun a b => param_order a < param_order b)
                 (getParams (metadataStore rt) f)
  /\ Forall (fun a => param_order a < paramOrder rt)
            (getParams (metadataStore rt) f).

(** How many response, respectively parameter, annotations a history holds,
    whatever their targets. *)
Definition isResponseAnnotation (a : Application) : bool :=
  match app_annotation a with AnnResponse _ => true | _ => false end.

Definition isParamAnnotation (a : Application) : bool :=
  match app_annotation a with AnnParam _ => true | _ => false end.

Definition countResponseAnnotations (history : list Application) : nat :=
  length (List.filter isResponseAnnotation history).

Definition countParamAnnotations (history : list Application) : nat :=
  length (List.filter isParamAnnotation history).

(** The aggregate of a target without metadata. *)
Definition noHandlerMetadata : HandlerMetadata :=
  {| operation := None; responses := []; params := []; queries := [];
     body := None; security := []; tags := [] |}.

(** The method names [determineHttpMethod] can return. *)
Definition httpMethods : list string := ["get"; "post"; "put"; "delete"; "patch"].

(** A response annotation with a type, an example and a custom content for
    [application/json] and [text/plain]. *)
Definition customContentResponse : ApiResponseMetadata :=
  {| response_options :=
       {| status := 200; resp_description := None;
          resp_type := Some (TypeName "object");
          resp_example := Some (JStr "hello");
          resp_headers := None;
          resp_content :=
            Some (<[ "application/json" :=
                       {| media_schema := Some (primitiveSchema "array");
                          media_example := None |} ]>
                    {[ "text/plain" :=
                         {| media_schema := Some (primitiveSchema "string");
                            media_example := None |} ]}) |};
     response_order := 0 |}.

(** A parameter annotation with an enumeration and no type. *)
Definition sortParam : ApiParamMetadata :=
  {| param_options :=
       {| param_name := "sort"; param_description := Some "";
          param_required := Some false; param_type := None;
          param_example := None;
          param_enum := Some [JStr "asc"; JStr "desc"];
          param_deprecated := Some false |};
     param_in := InPath; param_order := 0 |}.

(** Two parameters applied to [getUserHandler], with a response in between. *)
Definition twoParams : list Application :=
  [ onFunction (AnnOperation (summaryOnly "Get user by ID")) getUserHandler;
    onFunction
      (AnnParam {| param_name := "userId"; param_description := None;
                   param_required := None;
                   param_type := Some (TypeName "string");
                   param_example := None; param_enum := None;
                   param_deprecated := None |})
      getUserHandler;
    onFunction (AnnResponse (plainResponse 200 "Success")) getUserHandler;
    onFunction
      (AnnParam {| param_name := "groupId"; param_description := None;
                   param_required := Some false;
                   param_type := Some (TypeName "integer");
                   param_example := None; param_enum := None;
                   param_deprecated := None |})
      getUserHandler ].

(* ===================================================================== *)
(** * Strings *)
(* ===================================================================== *)

Section StringFacts.

Lemma string_app_cons (c : ascii) (s t : string) :
  String c s +:+ t = String c (s +:+ t).
Proof. reflexivity. Qed.

Lemma string_app_empty_r (s : string) : s +:+ "" = s.
Proof. induction s as [|c s IH]; [done|]. by rewrite string_app_cons, IH. Qed.

Lemma string_app_assoc (s t u : string) : (s +:+ t) +:+ u = s +:+ t +:+ u.
Proof. induction s as [|c s IH]; [done|]. by rewrite !string_app_cons, IH. Qed.

Lemma string_length_app (s t : string) :
  String.length (s +:+ t) = (String.length s + String.length t)%nat.
Proof. induction s as [|c s IH]; [done|]. rewrite string_app_cons. simpl. by rewrite IH. Qed.

Lemma toLowerCaseFrom_cons (st : bool) (c : ascii) (s : string) :
  Js.toLowerCaseFrom st (String c s)
  = String (Js.lowerByte st c) (Js.toLowerCaseFrom (Js.isLatin1Lead c) s).
Proof. reflexivity. Qed.

(** An ASCII byte is lower-cased by itself, whatever precedes it, and an
    ASCII byte in the result comes from an ASCII byte. *)
Lemma lowerByte_ascii (st : bool) (c : ascii) :
  Js.isAsciiChar c = true ->
  Js.lowerByte st c = Js.lowerChar c /\ Js.isLatin1Lead c = false.
Proof. destruct st, c as [[] [] [] [] [] [] [] []]; by vm_compute. Qed.

Lemma lowerByte_ascii_inv (st : bool) (c : ascii) :
  Js.isAsciiChar (Js.lowerByte st c) = true -> Js.isAsciiChar c = true.
Proof. destruct st, c as [[] [] [] [] [] [] [] []]; by vm_compute. Qed.

Lemma startsWith_spec (w s : string) :
  Js.startsWith s w = true <-> exists post, s = w +:+ post.
Proof.
  revert s. induction w as [|a w IH]; intros s.
  - simpl. split; [intros _; by exists s|done].
  - destruct s as [|b s]; simpl.
    + split; [done|]. by intros [post H].
    + case_decide as Hab.
      * subst b. rewrite IH. split; intros [post H]; exists post.
        -- by rewrite string_app_cons, H.
        -- rewrite string_app_cons in H. by injection H.
      * split; [done|]. intros [post H]. rewrite string_app_cons in H. by injection H.
Qed.

Lemma includes_spec (s w : string) :
  Js.includes s w = true <-> exists pre post, s = pre +:+ w +:+ post.
Proof.
  induction s as [|c s IH]; simpl.
  - destruct (Js.startsWith "" w) eqn:E.
    + split; [intros _|done]. apply startsWith_spec in E as [post E].
      by exists "", post.
    + split; [done|]. intros (pre & post & H). destruct pre as [|? ?]; [|done].
      assert (Js.startsWith "" w = true) as E'; [|congruence].
      apply startsWith_spec. by exists post.
  - destruct (Js.startsWith (String c s) w) eqn:E.
    + split; [intros _|done]. apply startsWith_spec in E as [post E].
      by exists "", post.
    + rewrite IH. split.
      * intros (pre & post & ->). by exists (String c pre), post.
      * intros (pre & post & H). destruct pre as [|d pre].
        -- assert (Js.startsWith (String c s) w = true) as E'; [|congruence].
           apply startsWith_spec. by exists post.
        -- rewrite string_app_cons in H. injection H as -> ->. by exists pre, post.
Qed.

Lemma includes_unfold (s w : string) :
  Js.includes s w
  = Js.startsWith s w
    || match s with
       | EmptyString => false
       | String _ s' => Js.includes s' w
       end.
Proof. destruct s; simpl; by destruct (Js.startsWith _ w). Qed.

(** An ASCII word at the start of the lower-cased string is the lower-cased
    form of a prefix of the string. *)
Lemma startsWith_lower_split (w : string) :
  Js.allAscii w = true ->
  forall st s, Js.startsWith (Js.toLowerCaseFrom st s) w = true ->
  exists mid post, s = mid +:+ post /\ Js.toLowerCase mid = w.
Proof.
  induction w as [|c w IH]; intros Hw st s H.
  - by exists "", s.
  - simpl in Hw. apply andb_true_iff in Hw as [Hc Hw].
    destruct s as [|b s]; [done|]. rewrite toLowerCaseFrom_cons in H. simpl in H.
    case_decide as E; [|done]. subst c.
    pose proof (lowerByte_ascii_inv st b Hc) as Hb.
    destruct (lowerByte_ascii st b Hb) as [E1 E2].
    destruct (lowerByte_ascii false b Hb) as [E3 _].
    destruct (IH Hw _ _ H) as (mid & post & -> & <-).
    exists (String b mid), post. split; [by rewrite string_app_cons|].
    unfold Js.toLowerCase. rewrite toLowerCaseFrom_cons, E2, E1, E3. done.
Qed.

Lemma startsWith_lower_join (mid : string) :
  forall w st post, Js.allAscii w = true -> Js.toLowerCase mid = w ->
  Js.startsWith (Js.toLowerCaseFrom st (mid +:+ post)) w = true.
Proof.
  induction mid as [|b mid IH]; intros w st post Hw H.
  - by subst w.
  - unfold Js.toLowerCase in H. rewrite toLowerCaseFrom_cons in H. subst w.
    simpl in Hw. apply andb_true_iff in Hw as [Hc Hw].
    pose proof (lowerByte_ascii_inv false b Hc) as Hb.
    destruct (lowerByte_ascii st b Hb) as [E1 E2].
    destruct (lowerByte_ascii false b Hb) as [E3 _].
    rewrite string_app_cons, toLowerCaseFrom_cons, E2, E1, E3. simpl.
    rewrite decide_True by done. rewrite E2 in Hw. by apply IH.
Qed.

Lemma includes_cons (c : ascii) (s w : string) :
  Js.includes (String c s) w = Js.startsWith (String c s) w || Js.includes s w.
Proof. apply includes_unfold. Qed.

Lemma includes_lowerFrom (w : string) :
  Js.allAscii w = true ->
  forall s st, Js.includes (Js.toLowerCaseFrom st s) w = true <->
  exists pre mid post, s = pre +:+ mid +:+ post /\ Js.toLowerCase mid = w.
Proof.
  intros Hw. induction s as [|b s IH]; intros st.
  - rewrite includes_unfold. simpl. rewrite orb_false_r. split.
    + intros H. apply (startsWith_lower_split w Hw st "") in H as (mid & post & E & H).
      by exists "", mid, post.
    + intros (pre & mid & post & E & H). destruct pre; [|done].
      change ("" = mid +:+ post) in E.
      apply (startsWith_lower_join mid w st post Hw) in H. by rewrite <- E in H.
  - rewrite toLowerCaseFrom_cons, includes_cons, orb_true_iff. split.
    + intros [H|H].
      * apply (startsWith_lower_split w Hw st (String b s)) in H
          as (mid & post & E & H).
        by exists "", mid, post.
      * apply IH in H as (pre & mid & post & -> & H).
        by exists (String b pre), mid, post.
    + intros (pre & mid & post & E & H). destruct pre as [|b' pre].
      * left. change (String b s = mid +:+ post) in E.
        apply (startsWith_lower_join mid w st post Hw) in H.
        by rewrite <- E in H.
      * right. rewrite string_app_cons in E. injection E as -> ->.
        apply IH. by exists pre, mid, post.
Qed.

(** [toLowerCase] followed by [includes] is the case-insensitive search for
    an ASCII word. *)
Lemma includes_toLowerCase (name w : string) :
  Js.allAscii w = true ->
  (Js.includes (Js.toLowerCase name) w = true <-> occursIgnoringCase w name).
Proof. intros Hw. apply (includes_lowerFrom w Hw). Qed.

Lemma removeSuffix_unfold (suffix s : string) :
  Js.removeSuffix suffix s =
    if decide (s = suffix) then ""
    else match s with
         | "" => ""
         | String c s' => String c (Js.removeSuffix suffix s')
         end.
Proof. by destruct s. Qed.

Lemma removeSuffix_app (suffix stem : string) :
  Js.removeSuffix suffix (stem +:+ suffix) = stem.
Proof.
  induction stem as [|c stem IH]; rewrite removeSuffix_unfold.
  - change ("" +:+ suffix) with suffix. by rewrite decide_True.
  - rewrite string_app_cons, decide_False, IH; [done|].
    intros H. apply (f_equal String.length) in H. simpl in H.
    rewrite string_length_app in H. lia.
Qed.

Lemma removeSuffix_none (suffix s : string) :
  (forall stem, s <> stem +:+ suffix) -> Js.removeSuffix suffix s = s.
Proof.
  induction s as [|c s IH]; intros H; rewrite removeSuffix_unfold.
  - case_decide as E; [|done]. by destruct (H "").
  - case_decide as E.
    + by destruct (H "").
    + f_equal. apply IH. intros stem ->. by destruct (H (String c stem)).
Qed.

Lemma removeSuffix_strip (name stem : string) :
  StripHandler name stem -> Js.removeSuffix "Handler" name = stem.
Proof.
  intros [stem'|name' H]; [apply removeSuffix_app|by apply removeSuffix_none].
Qed.


Lemma removeLeadingDash_other (c : ascii) (s : string) :
  c <> "-"%char -> Js.removeLeadingDash (String c s) = String c s.
Proof. destruct c as [[] [] [] [] [] [] [] []]; by intros H. Qed.



Lemma removeLeadingDash_strip (s : string) :
  Js.removeLeadingDash s = stripLeadingSeparator s.
Proof.
  destruct s as [|c s]; [done|].
  destruct c as [[] [] [] [] [] [] [] []]; reflexivity.
Qed.



End StringFacts.

(* ===================================================================== *)
(** * Inference heuristics *)
(* ===================================================================== *)

Section Heuristics.

Lemma StripHandler_functional (name stem1 stem2 : string) :
  StripHandler name stem1 -> StripHandler name stem2 -> stem1 = stem2.
Proof.
  intros H1 H2. apply removeSuffix_strip in H1, H2. congruence.
Qed.

Lemma MethodRule_functional (name m1 m2 : string) :
  MethodRule name m1 -> MethodRule name m2 -> m1 = m2.
Proof. intros H1 H2. destruct H1; destruct H2; first [reflexivity | tauto]. Qed.

(** Decide whether the word [w] occurs in [name], and close the goal when
    that settles the rule. *)
Ltac case_word name w :=
  let E := fresh "E" in
  let H := fresh "H" in
  destruct (Js.includes _ w) eqn:E;
  pose proof (includes_toLowerCase name w eq_refl) as H;
  [apply H in E | apply not_true_iff_false in E; rewrite H in E];
  clear H; simpl; try solve [constructor; tauto].

Lemma determineHttpMethod_MethodRule (name : string) :
  MethodRule name (determineHttpMethod name).
Proof.
  unfold determineHttpMethod.
  case_word name "get". case_word name "list". case_word name "find".
  case_word name "post". case_word name "create".
  case_word name "put". case_word name "update".
  case_word name "delete". case_word name "remove".
  case_word name "patch".
Qed.




(** On names without capitalized letters outside A to Z the two readings
    agree. *)
Example claimedPath_getUser : claimedPath "getUser" = specPath "getUser".
Proof. reflexivity. Qed.

(** C4: the HTTP method is decided by case-insensitive substring search in
    the precedence order get/list/find, post/create, put/update,
    delete/remove, patch, default GET; the method returned is the one of the
    first rule that applies, and of no other. *)
Theorem determineHttpMethod_precedence (name m : string) :
  determineHttpMethod name = m <-> MethodRule name m.
Proof.
  split.
  - intros <-. apply determineHttpMethod_MethodRule.
  - intros H. eapply MethodRule_functional; [apply determineHttpMethod_MethodRule|done].
Qed.

(** Every inferred path starts with a slash and every inferred method is one
    of five names, so neither collides with a property that a JavaScript
    object inherits. *)
Lemma generatePathFromFunction_slash (name : string) :
  exists rest, generatePathFromFunction name = String "/" rest.
Proof. by eexists. Qed.

Lemma determineHttpMethod_range (name : string) :
  determineHttpMethod name ∈ ["get"; "post"; "put"; "delete"; "patch"].
Proof.
  unfold determineHttpMethod.
  repeat match goal with
         | |- context [if ?b then _ else _] => destruct b
         end; set_solver.
Qed.

(** Lower-casing in the Latin-1 Supplement: the multiplication sign, the
    letters without an upper-case form and the lower-case letters stay. *)
Example toLowerCase_latin1 :
  Js.toLowerCase "ÀÉÖ×ØÞßµÿ-Az" = "àéö×øþßµÿ-az".
Proof. reflexivity. Qed.

Example path_createUser : generatePathFromFunction "createUserHandler" = "/create-user".
Proof. reflexivity. Qed.
Example path_simple : generatePathFromFunction "simpleHandler" = "/simple".
Proof. reflexivity. Qed.
Example path_capital : generatePathFromFunction "GetUser" = "/get-user".
Proof. reflexivity. Qed.
Example path_inner_suffix : generatePathFromFunction "HandlerFactory" = "/handler-factory".
Proof. reflexivity. Qed.
Example method_create : determineHttpMethod "createUserHandler" = "post".
Proof. reflexivity. Qed.
Example method_list : determineHttpMethod "listItemsHandler" = "get".
Proof. reflexivity. Qed.
(** Several rules match; the earliest one decides. *)
Example method_tie_get : determineHttpMethod "updateTargetHandler" = "get".
Proof. reflexivity. Qed.
Example method_tie_post : determineHttpMethod "createOrUpdateHandler" = "post".
Proof. reflexivity. Qed.
Example method_case : determineHttpMethod "DELETEItemHandler" = "delete".
Proof. reflexivity. Qed.

End Heuristics.

(* ===================================================================== *)
(** * The stable sort by [order] *)
(* ===================================================================== *)

Section SortFacts.
Context {A : Type} (order : A -> Z).

Lemma insertByOrder_Permutation (x : A) (l : list A) :
  Permutation (insertByOrder order x l) (x :: l).
Proof.
  induction l as [|y l IH]; simpl; [done|].
  destruct (order x <=? order y); [done|].
  rewrite IH. apply perm_swap.
Qed.

Lemma sortByOrder_cons (x : A) (l : list A) :
  sortByOrder order (x :: l) = insertByOrder order x (sortByOrder order l).
Proof. reflexivity. Qed.

Lemma sortByOrder_Permutation (l : list A) :
  Permutation (sortByOrder order l) l.
Proof.
  induction l as [|x l IH]; [done|].
  by rewrite sortByOrder_cons, insertByOrder_Permutation, IH.
Qed.

Lemma insertByOrder_Sorted (x : A) (l : list A) :
  Sorted (leOrder order) l -> Sorted (leOrder order) (insertByOrder order x l).
Proof.
  induction 1 as [|y l Hl IH Hhd]; simpl.
  - repeat constructor.
  - destruct (order x <=? order y) eqn:E.
    + apply Z.leb_le in E. repeat constructor; done.
    + apply Z.leb_gt in E. constructor; [done|].
      destruct l as [|z l]; simpl.
      * constructor. unfold leOrder. lia.
      * destruct (order x <=? order z); constructor.
        -- unfold leOrder. lia.
        -- by inversion Hhd.
Qed.

Lemma sortByOrder_Sorted (l : list A) : Sorted (leOrder order) (sortByOrder order l).
Proof.
  induction l as [|x l IH]; [constructor|].
  rewrite sortByOrder_cons. by apply insertByOrder_Sorted.
Qed.

Lemma insertByOrder_least (x : A) (l : list A) :
  Forall (fun y => order x <= order y) l -> insertByOrder order x l = x :: l.
Proof.
  destruct 1 as [|y l Hy _]; simpl; [done|].
  by rewrite (proj2 (Z.leb_le _ _) Hy).
Qed.

(** A list already in order is left as it is. *)
Lemma sortByOrder_id (l : list A) :
  StronglySorted (leOrder order) l -> sortByOrder order l = l.
Proof.
  induction 1 as [|x l Hl IH Hx]; [done|].
  rewrite sortByOrder_cons, IH. by apply insertByOrder_least.
Qed.

Lemma StronglySorted_snoc (R : A -> A -> Prop) (l : list A) (x : A) :
  StronglySorted R l -> Forall (fun y => R y x) l -> StronglySorted R (l ++ [x]).
Proof.
  induction 1 as [|y l Hl IH Hy]; intros Hx; simpl.
  - repeat constructor.
  - inversion Hx; subst. constructor; [by apply IH|].
    apply Forall_app. split; [done|]. by constructor.
Qed.

(** Appending an entry whose index is not below any stored one. *)
Lemma sortByOrder_snoc (l : list A) (x : A) :
  StronglySorted (leOrder order) l ->
  Forall (fun y => order y <= order x) l ->
  sortByOrder order (l ++ [x]) = l ++ [x].
Proof.
  intros Hl Hx. apply sortByOrder_id. by apply StronglySorted_snoc.
Qed.

Lemma sortByOrder_pair (x y : A) :
  sortByOrder order [x; y] = if order x <=? order y then [x; y] else [y; x].
Proof. reflexivity. Qed.

End SortFacts.

(* ===================================================================== *)
(** * The metadata store and the response annotation *)
(* ===================================================================== *)

Section StoreFacts.

Lemma getResponses_addResponse_eq (s : MetadataStore) (f : FunctionObject)
    (m : ApiResponseMetadata) :
  getResponses (addResponse f m s) f
  = sortByOrder response_order (getResponses s f ++ [m]).
Proof. unfold getResponses, addResponse. simpl. by rewrite lookup_insert_eq. Qed.

Lemma getResponses_addResponse_ne (s : MetadataStore) (f g : FunctionObject)
    (m : ApiResponseMetadata) :
  g <> f -> getResponses (addResponse g m s) f = getResponses s f.
Proof. intros H. unfold getResponses, addResponse. simpl. by rewrite lookup_insert_ne. Qed.

(** Whatever was stored before, [addResponse] leaves the collection of its
    target in the order of the sequence indices. *)
Lemma addResponse_Sorted (s : MetadataStore) (f : FunctionObject)
    (m : ApiResponseMetadata) :
  Sorted (fun a b => response_order a <= response_order b)
         (getResponses (addResponse f m s) f).
Proof. rewrite getResponses_addResponse_eq. apply sortByOrder_Sorted. Qed.

Lemma StronglySorted_weaken {A : Type} (R1 R2 : A -> A -> Prop) (l : list A) :
  (forall a b, R1 a b -> R2 a b) -> StronglySorted R1 l -> StronglySorted R2 l.
Proof.
  intros H. induction 1 as [|x l Hl IH Hx]; constructor; [done|].
  eapply Forall_impl; [exact Hx|]. auto.
Qed.

Lemma ApiResponse_options_eta (o : ApiResponseOptions) :
  {| status := status o; resp_description := resp_description o;
     resp_type := resp_type o; resp_example := resp_example o;
     resp_headers := resp_headers o; resp_content := resp_content o |} = o.
Proof. by destruct o. Qed.

(** On a collection that satisfies the invariant the re-sort changes nothing:
    the new entry goes to the end. *)
Lemma getResponses_ApiResponse_eq (rt : Runtime) (o : ApiResponseOptions)
    (t : FunctionObject) (k : option string) (d : option PropertyDescriptor) :
  ResponsesInOrder rt (targetFunctionOf t d) ->
  getResponses (metadataStore (ApiResponse o t k d rt)) (targetFunctionOf t d)
  = getResponses (metadataStore rt) (targetFunctionOf t d)
      ++ [ {| response_options := o; response_order := responseOrder rt |} ].
Proof.
  intros [Hs Hb]. unfold ApiResponse. simpl.
  rewrite getResponses_addResponse_eq, ApiResponse_options_eta.
  apply sortByOrder_snoc.
  - eapply StronglySorted_weaken; [|exact Hs]. unfold leOrder. intros; lia.
  - eapply Forall_impl; [exact Hb|]. simpl. intros; lia.
Qed.

Lemma getResponses_ApiResponse_ne (rt : Runtime) (o : ApiResponseOptions)
    (t f : FunctionObject) (k : option string) (d : option PropertyDescriptor) :
  targetFunctionOf t d <> f ->
  getResponses (metadataStore (ApiResponse o t k d rt)) f
  = getResponses (metadataStore rt) f.
Proof. intros H. unfold ApiResponse. simpl. by apply getResponses_addResponse_ne. Qed.

(** One application keeps the invariant and appends to the collection of [f]
    exactly when it is a response annotation on [f]. *)
Lemma apply_responses (rt : Runtime) (f : FunctionObject) (a : Application) :
  ResponsesInOrder rt f ->
  ResponsesInOrder (apply rt a) f
  /\ response_options <$> getResponses (metadataStore (apply rt a)) f
     = (response_options <$> getResponses (metadataStore rt) f)
         ++ responsesAppliedTo f [a].
Proof.
  intros Hrt. pose proof Hrt as [Hs Hb].
  destruct a as [[o|o|o] t k d];
    unfold apply, responsesAppliedTo, ResponsesInOrder; cbn -[ApiResponse].
  - split; [split; done|]. by rewrite app_nil_r.
  - case_decide as E.
    + subst f. rewrite getResponses_ApiResponse_eq by done.
      split; [split|].
      * apply StronglySorted_snoc; [done|]. exact Hb.
      * apply Forall_app. split.
        -- eapply Forall_impl; [exact Hb|]. simpl. intros; lia.
        -- constructor; [simpl; lia|constructor].
      * by rewrite fmap_app.
    + rewrite getResponses_ApiResponse_ne by done. split; [split|].
      * done.
      * eapply Forall_impl; [exact Hb|]. simpl. intros; lia.
      * by rewrite app_nil_r.
  - split; [split; done|]. by rewrite app_nil_r.
Qed.

Lemma responsesAppliedTo_cons (f : FunctionObject) (a : Application)
    (history : list Application) :
  responsesAppliedTo f (a :: history)
  = responsesAppliedTo f [a] ++ responsesAppliedTo f history.
Proof.
  unfold responsesAppliedTo. simpl.
  destruct (app_annotation a); try done. by case_decide.
Qed.

Lemma applyAll_responses (history : list Application) (rt : Runtime)
    (f : FunctionObject) :
  ResponsesInOrder rt f ->
  ResponsesInOrder (applyAll rt history) f
  /\ response_options <$> getResponses (metadataStore (applyAll rt history)) f
     = (response_options <$> getResponses (metadataStore rt) f)
         ++ responsesAppliedTo f history.
Proof.
  revert rt. induction history as [|a history IH]; intros rt Hrt.
  - split; [done|]. by rewrite app_nil_r.
  - destruct (apply_responses rt f a Hrt) as [Hrt' E].
    destruct (IH (apply rt a) Hrt') as [Hfin E'].
    split; [exact Hfin|].
    change (applyAll rt (a :: history)) with (applyAll (apply rt a) history).
    rewrite E', E, (responsesAppliedTo_cons f a history).
    symmetry. apply app_assoc.
Qed.

Lemma find_head_filter {A : Type} (P : A -> bool) (l : list A) :
  find P l = head (List.filter P l).
Proof. induction l as [|x l IH]; simpl; [done|]. by destruct (P x). Qed.

End StoreFacts.

Section ResponseCollection.

Lemma StronglySorted_fmap_order (l : list ApiResponseMetadata) :
  StronglySorted (fun a b => response_order a < response_order b) l ->
  StronglySorted Z.lt (response_order <$> l).
Proof.
  induction 1 as [|x l Hl IH Hx]; simpl; constructor; [done|].
  apply Forall_fmap. exact Hx.
Qed.

Lemma ResponsesInOrder_fresh (rt : Runtime) (f : FunctionObject) :
  getResponses (metadataStore rt) f = [] -> ResponsesInOrder rt f.
Proof. intros H. unfold ResponsesInOrder. rewrite H. split; constructor. Qed.

(** C5: a handler that starts without responses and is then annotated, in a
    history of decorator applications that may also touch other handlers and
    other kinds but never resets the counter, ends with exactly the response
    entries applied to it, in application order and with strictly increasing
    sequence indices, whatever their status codes are. *)
Theorem getResponses_application_order (rt : Runtime) (f : FunctionObject)
    (history : list Application) :
  getApiResponses (metadataStore rt) f = [] ->
  let stored := getApiResponses (metadataStore (applyAll rt history)) f in
  response_options <$> stored = responsesAppliedTo f history
  /\ StronglySorted Z.lt (response_order <$> stored).
Proof.
  intros Hfresh stored.
  destruct (applyAll_responses history rt f (ResponsesInOrder_fresh rt f Hfresh))
    as [[Hs _] E].
  unfold getApiResponses in Hfresh. rewrite Hfresh in E. split; [exact E|].
  by apply StronglySorted_fmap_order.
Qed.

Lemma getResponses_application_order_witness :
  let stored :=
    getApiResponses (metadataStore (applyAll initialRuntime outOfStatusOrder))
                    testFunction in
  response_options <$> stored = responsesAppliedTo testFunction outOfStatusOrder
  /\ StronglySorted Z.lt (response_order <$> stored).
Proof.
  apply (getResponses_application_order initialRuntime testFunction outOfStatusOrder).
  reflexivity.
Defined.

Example outOfStatusOrder_stored :
  (fun m => (status (response_options m), response_order m))
    <$> getApiResponses (metadataStore (applyAll initialRuntime outOfStatusOrder))
                        testFunction
  = [(500, 0); (200, 2); (404, 3)].
Proof. vm_compute. reflexivity. Qed.

(** A reset between two annotations of one handler is what the invariant
    excludes: the later entry then sorts before the earlier one. *)
Example reset_between_annotations :
  let rt1 :=
    ApiResponse (plainResponse 500 "Server error") testFunction None None
      (ApiResponse (plainResponse 201 "Created") anotherHandler None None
         initialRuntime) in
  let rt2 :=
    ApiResponse (plainResponse 200 "Success") testFunction None None
      (resetResponseOrder rt1) in
  (fun m => (status (response_options m), response_order m))
    <$> getApiResponses (metadataStore rt2) testFunction
  = [(200, 0); (500, 1)].
Proof. vm_compute. reflexivity. Qed.

(** Two entries added to an empty collection: the re-sort puts the entry with
    the smaller index first and keeps the insertion order on a tie. *)
Lemma getResponses_add_two (s : MetadataStore) (f : FunctionObject)
    (m1 m2 : ApiResponseMetadata) :
  getResponses s f = [] ->
  getResponses (addResponse f m2 (addResponse f m1 s)) f
  = if response_order m1 <=? response_order m2 then [m1; m2] else [m2; m1].
Proof.
  intros Hfresh. rewrite !getResponses_addResponse_eq, Hfresh. simpl app.
  change (sortByOrder response_order [m1]) with [m1]. simpl app.
  apply sortByOrder_pair.
Qed.

(** C6, as amended: two entries with the same status code added to a handler
    without responses are both kept, and the look-up by status returns the
    one that sorts first: the first-added entry when its sequence index is
    not above that of the later entry, the later entry otherwise. *)
Theorem getApiResponse_duplicate_status (s : MetadataStore) (f : FunctionObject)
    (m1 m2 : ApiResponseMetadata) :
  getApiResponses s f = [] ->
  status (response_options m1) = status (response_options m2) ->
  let s' := addResponse f m2 (addResponse f m1 s) in
  length (getApiResponses s' f) = 2%nat
  /\ m1 ∈ getApiResponses s' f
  /\ m2 ∈ getApiResponses s' f
  /\ getApiResponse s' f (status (response_options m1))
     = Some (if response_order m1 <=? response_order m2 then m1 else m2).
Proof.
  intros Hfresh Hst s'. unfold getApiResponse, getApiResponses in *. subst s'.
  rewrite (getResponses_add_two s f m1 m2 Hfresh).
  destruct (response_order m1 <=? response_order m2); simpl.
  - rewrite bool_decide_eq_true_2 by done. repeat split; set_solver.
  - rewrite bool_decide_eq_true_2 by done. repeat split; set_solver.
Qed.

Lemma getApiResponse_duplicate_status_witness :
  let s' := addResponse testFunction secondSuccess
              (addResponse testFunction firstSuccess emptyStore) in
  length (getApiResponses s' testFunction) = 2%nat
  /\ firstSuccess ∈ getApiResponses s' testFunction
  /\ secondSuccess ∈ getApiResponses s' testFunction
  /\ getApiResponse s' testFunction 200 = Some secondSuccess.
Proof.
  apply (getApiResponse_duplicate_status emptyStore testFunction
           firstSuccess secondSuccess); reflexivity.
Defined.

(** C6, as stated, fails: the first-added entry carries the larger sequence
    index, both entries are kept, and the look-up by status 200 returns the
    entry added later. *)
Lemma getApiResponse_returns_later_added :
  let s' := addResponse testFunction secondSuccess
              (addResponse testFunction firstSuccess emptyStore) in
  getApiResponses emptyStore testFunction = []
  /\ status (response_options firstSuccess) = status (response_options secondSuccess)
  /\ length (getApiResponses s' testFunction) = 2%nat
  /\ getApiResponse s' testFunction 200 = Some secondSuccess
  /\ getApiResponse s' testFunction 200 <> Some firstSuccess.
Proof. vm_compute. repeat split; discriminate. Qed.

(** Entries created by the decorator itself, with no reset in between, carry
    increasing indices, and then the look-up returns the first-applied one. *)
Lemma getApiResponse_first_applied (rt : Runtime) (f : FunctionObject)
    (o1 o2 : ApiResponseOptions) :
  getApiResponses (metadataStore rt) f = [] ->
  status o1 = status o2 ->
  let rt' := ApiResponse o2 f None None (ApiResponse o1 f None None rt) in
  length (getApiResponses (metadataStore rt') f) = 2%nat
  /\ getApiResponse (metadataStore rt') f (status o1)
     = Some {| response_options := o1; response_order := responseOrder rt |}.
Proof.
  intros Hfresh Hst rt'. subst rt'. unfold ApiResponse. simpl.
  rewrite !ApiResponse_options_eta.
  unfold getApiResponse, getApiResponses in *.
  rewrite (getResponses_add_two _ f _ _ Hfresh). simpl.
  rewrite (proj2 (Z.leb_le _ _)) by lia. simpl.
  by rewrite bool_decide_eq_true_2.
Qed.

End ResponseCollection.

(* ===================================================================== *)
(** * Schema mapper and responses *)
(* ===================================================================== *)

Section GeneratorFacts.



Lemma collectResponses_foldl (rs : list ApiResponseMetadata) :
  collectResponses rs = foldl recordResponse ∅ rs.
Proof. reflexivity. Qed.

Lemma responseKey_inj (r1 r2 : ApiResponseMetadata) :
  responseKey r1 = responseKey r2 ->
  status (response_options r1) = status (response_options r2).
Proof. unfold responseKey, Js.toString. apply (inj pretty). Qed.

(** Entries recorded afterwards under other keys leave a key as it is. *)
Lemma foldl_recordResponse_other (post : list ApiResponseMetadata)
    (m : gmap string ResponseObject) (k : string) :
  Forall (fun r => responseKey r <> k) post ->
  foldl recordResponse m post !! k = m !! k.
Proof.
  revert m. induction post as [|r post IH]; intros m H; [done|].
  inversion H as [|? ? Hr Hpost]; subst. simpl. rewrite IH by done.
  unfold recordResponse. by rewrite lookup_insert_ne.
Qed.

(** Every entry of the collected map is the response object of some
    metadata entry, or was in the map before. *)
Lemma foldl_recordResponse_origin (rs : list ApiResponseMetadata)
    (m : gmap string ResponseObject) (k : string) (v : ResponseObject) :
  foldl recordResponse m rs !! k = Some v ->
  m !! k = Some v
  \/ exists r, r ∈ rs /\ k = responseKey r /\ v = generateResponse r.
Proof.
  revert m. induction rs as [|r rs IH]; intros m H; [by left|].
  simpl in H. apply IH in H as [H|(r' & Hin & Hk & Hv)].
  - unfold recordResponse in H. apply lookup_insert_Some in H as [[<- <-]|[_ H]].
    + right. exists r. split; [left|done].
    + by left.
  - right. exists r'. split; [by right|done].
Qed.

Lemma collectResponses_empty_iff (rs : list ApiResponseMetadata) :
  size (collectResponses rs) = 0%nat <-> rs = [].
Proof.
  split; [|by intros ->].
  destruct rs as [|r rs _] using rev_ind; [done|]. intros H.
  apply map_size_empty_iff in H. rewrite collectResponses_foldl, foldl_app in H.
  simpl in H. unfold recordResponse in H at 1. by apply insert_non_empty in H.
Qed.

Lemma generateResponses_nil :
  generateResponses [] = {[ "200" := defaultResponse ]}.
Proof. reflexivity. Qed.

Lemma generateResponses_cons (rs : list ApiResponseMetadata) :
  rs <> [] -> generateResponses rs = collectResponses rs.
Proof.
  intros H. unfold generateResponses. case_decide as E; [|done].
  by apply collectResponses_empty_iff in E.
Qed.


Lemma find_status_head (rs : list ApiResponseMetadata) (st : Z) :
  find (fun r => bool_decide (status (response_options r) = st)) rs
  = head (filter (fun r => status (response_options r) = st) rs).
Proof.
  induction rs as [|r rs IH]; [done|]. simpl.
  rewrite filter_cons. case_bool_decide; case_decide; done.
Qed.

(** C10: among the stored response entries of a handler, the last one with
    a given status code is the one the operation shows under that code; the
    store still holds every entry and its look-up by status returns the
    first. *)
Theorem generateOperation_last_response (store : MetadataStore)
    (handler : FunctionObject) (pre post : list ApiResponseMetadata)
    (r : ApiResponseMetadata) :
  getResponses store handler = pre ++ r :: post ->
  Forall (fun r' => status (response_options r') <> status (response_options r)) post ->
  operation_responses (generateOperation (getHandlerMetadata store handler))
    !! Js.toString (status (response_options r))
  = Some (generateResponse r)
  /\ getApiResponse store handler (status (response_options r))
     = head (filter (fun r' => status (response_options r') = status (response_options r))
                    (pre ++ r :: post)).
Proof.
  intros Hrs Hpost. split.
  - simpl. rewrite Hrs, generateResponses_cons by (by destruct pre).
    rewrite collectResponses_foldl, foldl_app. simpl.
    rewrite foldl_recordResponse_other.
    + unfold recordResponse. apply lookup_insert_eq.
    + eapply Forall_impl; [exact Hpost|]. simpl. intros r' Hne Hk.
      apply Hne. by apply responseKey_inj.
  - unfold getApiResponse. rewrite Hrs. apply find_status_head.
Qed.

End GeneratorFacts.

(* ===================================================================== *)
(** * Paths *)
(* ===================================================================== *)

Section PathsFacts.

Lemma addHandler_contribution (store : MetadataStore)
    (paths : gmap string PathItemObject) (handler : FunctionObject) :
  addHandler store paths handler
  = match contribution store handler with
    | None => paths
    | Some (path, method, op) =>
        <[ path := <[ method := op ]> (default ∅ (paths !! path)) ]> paths
    end.
Proof.
  unfold addHandler, contribution. simpl.
  destruct (getOperation store handler) as [meta|]; [|done].
  destruct (paths !! generatePathFromFunction (functionName meta)) as [item|] eqn:E; simpl.
  - apply map_eq. intros k. rewrite lookup_alter, lookup_insert.
    case_decide; [subst k; by rewrite E|done].
  - by rewrite alter_insert_eq.
Qed.

Lemma addHandler_skip (store : MetadataStore)
    (paths : gmap string PathItemObject) (handler : FunctionObject) :
  getOperation store handler = None -> addHandler store paths handler = paths.
Proof. intros H. rewrite addHandler_contribution. unfold contribution. by rewrite H. Qed.

Lemma operationAt_addHandler (store : MetadataStore)
    (paths : gmap string PathItemObject) (handler : FunctionObject)
    (path method : string) :
  operationAt (addHandler store paths handler) path method
  = match contribution store handler with
    | Some (path', method', op) =>
        if decide (path' = path /\ method' = method) then Some op
        else operationAt paths path method
    | None => operationAt paths path method
    end.
Proof.
  rewrite addHandler_contribution.
  destruct (contribution store handler) as [[[path' method'] op]|]; [|done].
  unfold operationAt. rewrite lookup_insert.
  destruct (decide (path' = path)) as [->|Hp]; simpl.
  - rewrite lookup_insert.
    destruct (decide (method' = method)) as [->|Hm].
    + by rewrite decide_True.
    + rewrite decide_False by tauto. by destruct (paths !! path).
  - by rewrite decide_False by tauto.
Qed.

Lemma generatePaths_snoc (store : MetadataStore) (handlers : list FunctionObject)
    (handler : FunctionObject) :
  generatePaths store (handlers ++ [handler])
  = addHandler store (generatePaths store handlers) handler.
Proof. unfold generatePaths. by rewrite foldl_app. Qed.

(** Handlers that write elsewhere leave [paths[path][method]] as it is. *)
Lemma operationAt_foldl_other (store : MetadataStore) (post : list FunctionObject)
    (paths : gmap string PathItemObject) (path method : string) :
  Forall (fun h => forall op, contribution store h <> Some (path, method, op)) post ->
  operationAt (foldl (addHandler store) paths post) path method
  = operationAt paths path method.
Proof.
  revert paths. induction post as [|h post IH]; intros paths H; [done|].
  inversion H as [|? ? Hh Hpost]; subst. simpl. rewrite IH by done.
  rewrite operationAt_addHandler.
  destruct (contribution store h) as [[[path' method'] op]|]; [|done].
  case_decide as E; [|done]. destruct E as [-> ->]. by destruct (Hh op).
Qed.

(** Every operation of the document comes from a handler of the list that
    carries operation metadata. *)
Lemma operationAt_origin (store : MetadataStore) (handlers : list FunctionObject)
    (path method : string) (op : OperationObject) :
  operationAt (generatePaths store handlers) path method = Some op ->
  exists h, h ∈ handlers /\ contribution store h = Some (path, method, op).
Proof.
  induction handlers as [|h handlers IH] using rev_ind; [done|].
  rewrite generatePaths_snoc, operationAt_addHandler.
  destruct (contribution store h) as [[[path' method'] op']|] eqn:E.
  - case_decide as Hpm.
    + destruct Hpm as [-> ->]. intros [= <-]. exists h. split; [apply elem_of_app; right; by apply list_elem_of_singleton|done].
    + intros H. destruct (IH H) as (h' & Hin & Hc). exists h'. split; [apply elem_of_app; by left|done].
  - intros H. destruct (IH H) as (h' & Hin & Hc). exists h'. split; [apply elem_of_app; by left|done].
Qed.

(** Every key of [paths] is the path inferred for such a handler. *)
Lemma paths_key_origin (store : MetadataStore) (handlers : list FunctionObject)
    (path : string) :
  is_Some (generatePaths store handlers !! path) ->
  exists h method op, h ∈ handlers /\ contribution store h = Some (path, method, op).
Proof.
  induction handlers as [|h handlers IH] using rev_ind.
  - intros [x Hx]. unfold generatePaths in Hx. simpl in Hx.
    by rewrite lookup_empty in Hx.
  - rewrite generatePaths_snoc, addHandler_contribution.
    destruct (contribution store h) as [[[path' method'] op']|] eqn:E.
    + rewrite lookup_insert_is_Some. intros [->|[_ H]].
      * exists h, method', op'. split; [apply elem_of_app; right; by apply list_elem_of_singleton|done].
      * destruct (IH H) as (h' & m & o & Hin & Hc).
        exists h', m, o. split; [apply elem_of_app; by left|done].
    + intros H. destruct (IH H) as (h' & m & o & Hin & Hc).
      exists h', m, o. split; [apply elem_of_app; by left|done].
Qed.

(** A handler with operation metadata leaves its path key in [paths]; later
    handlers add keys or replace operations, never remove a key. *)
Lemma paths_key_present (store : MetadataStore) (handlers : list FunctionObject)
    (h : FunctionObject) (meta : ApiOperationMetadata) :
  h ∈ handlers -> getOperation store h = Some meta ->
  is_Some (generatePaths store handlers !! generatePathFromFunction (functionName meta)).
Proof.
  intros Hin Hm. induction handlers as [|x handlers IH] using rev_ind.
  - by apply elem_of_nil in Hin.
  - rewrite generatePaths_snoc, addHandler_contribution.
    apply elem_of_app in Hin as [Hin|Hin].
    + destruct (contribution store x) as [[[path' method'] op']|]; [|by apply IH].
      apply lookup_insert_is_Some'. right. by apply IH.
    + apply list_elem_of_singleton in Hin as <-.
      unfold contribution. rewrite Hm. apply lookup_insert_is_Some'. by left.
Qed.

Lemma generatePaths_filter (store : MetadataStore) (handlers : list FunctionObject) :
  generatePaths store handlers
  = generatePaths store (filter (fun h => is_Some (getOperation store h)) handlers).
Proof.
  induction handlers as [|h handlers IH] using rev_ind; [done|].
  rewrite filter_app, generatePaths_snoc, IH, filter_cons, filter_nil.
  case_decide as E.
  - by rewrite generatePaths_snoc.
  - rewrite app_nil_r. apply addHandler_skip.
    destruct (getOperation store h) eqn:Ho; [|done]. destruct E. by eexists.
Qed.

Lemma contribution_Some (store : MetadataStore) (h : FunctionObject)
    (path method : string) (op : OperationObject) :
  contribution store h = Some (path, method, op) <->
  exists meta, getOperation store h = Some meta
    /\ path = generatePathFromFunction (functionName meta)
    /\ method = determineHttpMethod (functionName meta)
    /\ op = generateOperation (getHandlerMetadata store h).
Proof.
  unfold contribution. destruct (getOperation store h) as [meta|]; split.
  - intros [= <- <- <-]. by exists meta.
  - intros (meta' & [= <-] & -> & -> & ->). done.
  - done.
  - by intros (meta' & ? & _).
Qed.

End PathsFacts.

(* ===================================================================== *)
(** * Assembly *)
(* ===================================================================== *)

Section Assembly.

(** C2: handlers without operation metadata leave the document untouched:
    the paths are those of the list restricted to the handlers that carry
    operation metadata; the path keys are exactly the paths inferred for
    those handlers, and every operation comes from one of them; of two
    handlers of which one carries operation metadata exactly one path key
    results. *)
Theorem generatePaths_skips_unannotated (store : MetadataStore)
    (handlers : list FunctionObject) :
  generatePaths store handlers
  = generatePaths store (filter (fun h => is_Some (getOperation store h)) handlers)
  /\ (forall path, is_Some (generatePaths store handlers !! path) <->
        exists h meta, h ∈ handlers /\ getOperation store h = Some meta
          /\ path = generatePathFromFunction (functionName meta))
  /\ (forall path method op,
        operationAt (generatePaths store handlers) path method = Some op ->
        exists h meta, h ∈ handlers /\ getOperation store h = Some meta
          /\ path = generatePathFromFunction (functionName meta)
          /\ method = determineHttpMethod (functionName meta)
          /\ op = generateOperation (getHandlerMetadata store h))
  /\ (forall h1 h2, getOperation store h1 = None ->
        is_Some (getOperation store h2) ->
        size (generatePaths store [h1; h2]) = 1%nat
        /\ size (generatePaths store [h2; h1]) = 1%nat).
Proof.
  split; [apply generatePaths_filter|split; [|split]].
  - intros path. split.
    + intros H. apply paths_key_origin in H as (h & method & op & Hin & Hc).
      apply contribution_Some in Hc as (meta & Hm & -> & _). by exists h, meta.
    + intros (h & meta & Hin & Hm & ->). by eapply paths_key_present.
  - intros path method op H. apply operationAt_origin in H as (h & Hin & Hc).
    apply contribution_Some in Hc as (meta & Hm & -> & -> & ->). by exists h, meta.
  - intros h1 h2 H1 [meta H2].
    assert (forall paths, addHandler store paths h1 = paths) as Hskip.
    { intros paths. by apply addHandler_skip. }
    unfold generatePaths. simpl. rewrite !Hskip.
    rewrite addHandler_contribution. unfold contribution. rewrite H2.
    rewrite lookup_empty. simpl. by rewrite insert_empty, map_size_singleton.
Qed.

(** C9: of the handlers that resolve to one path and method, the last in list
    order supplies the operation found there: it replaces whatever earlier
    handlers had written, and the assembly goes through as for any list. *)
Theorem generatePaths_last_wins (store : MetadataStore)
    (pre post : list FunctionObject) (h : FunctionObject)
    (meta : ApiOperationMetadata) :
  getOperation store h = Some meta ->
  Forall (fun h' => forall meta', getOperation store h' = Some meta' ->
            ~ (generatePathFromFunction (functionName meta')
                 = generatePathFromFunction (functionName meta)
               /\ determineHttpMethod (functionName meta')
                  = determineHttpMethod (functionName meta))) post ->
  operationAt (generatePaths store (pre ++ h :: post))
              (generatePathFromFunction (functionName meta))
              (determineHttpMethod (functionName meta))
  = Some (generateOperation (getHandlerMetadata store h)).
Proof.
  intros Hm Hpost. unfold generatePaths. rewrite foldl_app. simpl.
  rewrite operationAt_foldl_other.
  - rewrite operationAt_addHandler. unfold contribution. rewrite Hm.
    by rewrite decide_True.
  - eapply Forall_impl; [exact Hpost|]. simpl. intros h' Hh' op Hc.
    apply contribution_Some in Hc as (meta' & Hm' & Hp & Hmeth & _).
    apply (Hh' meta' Hm'). by split.
Qed.

End Assembly.

Section Scenarios.

(** C1: the [getUserHandler] scenario. The document holds an operation at
    [paths['/get-user'].get] whose summary is the annotated one, with one
    parameter, a [200] response whose JSON schema has type [object], and a
    [404] response, whose description is the annotated one or, without one,
    the text [Response 404]. *)
Theorem getUser_scenario (opDescription : option string)
    (opTags : option (list string)) (opId : option string)
    (opDeprecated : option bool) (paramDescription d200 d404 : option string) :
  let rt := applyAll initialRuntime
              (getUserAnnotations opDescription opTags opId opDeprecated
                                  paramDescription d200 d404) in
  let document := generateOpenApiSpec userApiConfig (metadataStore rt) [getUserHandler] in
  exists operation r200 media schema r404,
    operationAt (paths document) "/get-user" "get" = Some operation
    /\ operation_summary operation = Some "Get user by ID"
    /\ length <$> operation_parameters operation = Some 1%nat
    /\ operation_responses operation !! "200" = Some r200
    /\ response_content r200 ≫= (fun content => content !! "application/json")
       = Some media
    /\ media_schema media = Some schema
    /\ schema_type schema = Some "object"
    /\ operation_responses operation !! "404" = Some r404
    /\ response_description r404 = Js.orElse d404 "Response 404".
Proof.
  intros rt document. subst rt document.
  vm_compute.
  do 5 eexists. repeat split; reflexivity.
Qed.

End Scenarios.

Section Collisions.

Lemma generatePaths_last_wins_witness :
  operationAt
    (generatePaths collidingStore
       [getUserHandler; GetUser; createUserHandler; handlerWithoutDecorators])
    "/get-user" "get"
  = Some (generateOperation (getHandlerMetadata collidingStore GetUser)).
Proof.
  refine (generatePaths_last_wins collidingStore [getUserHandler]
            [createUserHandler; handlerWithoutDecorators] GetUser
            {| functionName := "GetUser"; operation_options := summaryOnly "Second" |}
            _ _).
  - reflexivity.
  - repeat constructor.
    + intros meta' H. vm_compute in H. injection H as <-.
      intros [Hpath _]. vm_compute in Hpath. discriminate Hpath.
    + intros meta' H. vm_compute in H. discriminate H.
Defined.

Example collision_summary :
  operation_summary
    <$> operationAt
          (generatePaths collidingStore
             [getUserHandler; GetUser; createUserHandler; handlerWithoutDecorators])
          "/get-user" "get"
  = Some (Some "Second").
Proof. vm_compute. reflexivity. Qed.

Example mixed_handlers_one_path :
  size (generatePaths collidingStore [handlerWithoutDecorators; createUserHandler])
  = 1%nat.
Proof. vm_compute. reflexivity. Qed.

Lemma generateOperation_last_response_witness :
  operation_responses (generateOperation (getHandlerMetadata duplicateStore getUserHandler))
    !! "200"
  = Some {| response_description := "Second success response";
            response_content := None |}
  /\ getApiResponse duplicateStore getUserHandler 200
     = Some {| response_options := plainResponse 200 "First success response";
               response_order := 0 |}.
Proof.
  refine (generateOperation_last_response duplicateStore getUserHandler
            [ {| response_options := plainResponse 200 "First success response";
                 response_order := 0 |} ]
            [ {| response_options := plainResponse 404 "Not found";
                 response_order := 2 |} ]
            {| response_options := plainResponse 200 "Second success response";
               response_order := 1 |} _ _).
  - reflexivity.
  - repeat constructor. simpl. lia.
Defined.

Example default_response_only :
  operation_responses
    (generateOperation (getHandlerMetadata collidingStore createUserHandler))
  = {[ "200" := defaultResponse ]}.
Proof. reflexivity. Qed.

(** A response entry that spells out the default text is kept as a metadata
    entry; nothing is synthesised next to it. *)
Example explicit_200_response :
  generateResponses
    [ {| response_options := plainResponse 200 "Successful response";
         response_order := 0 |} ]
  = collectResponses
      [ {| response_options := plainResponse 200 "Successful response";
           response_order := 0 |} ].
Proof. reflexivity. Qed.

End Collisions.

(* ===================================================================== *)
(** * Further properties of the metadata store *)
(* ===================================================================== *)

Section SortStability.
Context {A : Type} (order : A -> Z).

Lemma filter_insertByOrder (k : Z) (x : A) (l : list A) :
  filter (fun a => order a = k) (insertByOrder order x l)
  = filter (fun a => order a = k) (x :: l).
Proof.
  induction l as [|y l IH]; [done|]. simpl.
  destruct (order x <=? order y) eqn:E; [done|]. apply Z.leb_gt in E.
  rewrite (filter_cons _ y), IH, !filter_cons.
  repeat case_decide; try done; lia.
Qed.

(** Entries with equal indices keep their relative order. *)
Lemma sortByOrder_stable (k : Z) (l : list A) :
  filter (fun a => order a = k) (sortByOrder order l)
  = filter (fun a => order a = k) l.
Proof.
  induction l as [|x l IH]; [done|].
  rewrite sortByOrder_cons, filter_insertByOrder, !filter_cons, IH. done.
Qed.

Lemma Sorted_leOrder_sortByOrder (l : list A) :
  Sorted (fun a b => order a <= order b) (sortByOrder order l).
Proof. apply (sortByOrder_Sorted order). Qed.

End SortStability.

Section StoreExtras.

Lemma getParams_addParam_eq (s : MetadataStore) (f : FunctionObject)
    (m : ApiParamMetadata) :
  getParams (addParam f m s) f = sortByOrder param_order (getParams s f ++ [m]).
Proof. unfold getParams, addParam. simpl. by rewrite lookup_insert_eq. Qed.

Lemma getParams_addParam_ne (s : MetadataStore) (f g : FunctionObject)
    (m : ApiParamMetadata) :
  g <> f -> getParams (addParam g m s) f = getParams s f.
Proof. intros H. unfold getParams, addParam. simpl. by rewrite lookup_insert_ne. Qed.

(** X1: whatever the store holds, [addResponse] leaves the collection of its
    target sorted by sequence index; the collection holds the former entries
    and the new one, and entries with the same index stay in the order in
    which they were added. *)
Theorem addResponse_sorted_stable (s : MetadataStore) (f : FunctionObject)
    (m : ApiResponseMetadata) :
  let before := getResponses s f in
  let after := getResponses (addResponse f m s) f in
  Sorted (fun a b => response_order a <= response_order b) after
  /\ after ≡ₚ before ++ [m]
  /\ length after = S (length before)
  /\ (forall k, filter (fun a => response_order a = k) after
              = filter (fun a => response_order a = k) (before ++ [m])).
Proof.
  intros before after. subst before after. rewrite getResponses_addResponse_eq.
  split; [apply Sorted_leOrder_sortByOrder|split; [|split]].
  - apply sortByOrder_Permutation.
  - rewrite (Permutation_length (sortByOrder_Permutation response_order _)).
    rewrite length_app. simpl. lia.
  - intros k. apply sortByOrder_stable.
Qed.

(** X2: the four other collection kinds are stored the same way: after an
    add, the collection of the target is sorted by sequence index and holds
    the former entries and the new one. *)
Theorem add_collections_sorted (s : MetadataStore) (f : FunctionObject) :
  (forall m, Sorted (fun a b => param_order a <= param_order b)
                    (getParams (addParam f m s) f)
             /\ getParams (addParam f m s) f ≡ₚ getParams s f ++ [m])
  /\ (forall m, Sorted (fun a b => query_order a <= query_order b)
                       (getQueries (addQuery f m s) f)
                /\ getQueries (addQuery f m s) f ≡ₚ getQueries s f ++ [m])
  /\ (forall m, Sorted (fun a b => sec_order a <= sec_order b)
                       (getSecurity (addSecurity f m s) f)
                /\ getSecurity (addSecurity f m s) f ≡ₚ getSecurity s f ++ [m])
  /\ (forall m, Sorted (fun a b => tag_order a <= tag_order b)
                       (getTags (addTag f m s) f)
                /\ getTags (addTag f m s) f ≡ₚ getTags s f ++ [m]).
Proof.
  repeat split.
  - rewrite getParams_addParam_eq. apply Sorted_leOrder_sortByOrder.
  - rewrite getParams_addParam_eq. apply sortByOrder_Permutation.
  - unfold getQueries at 1, addQuery. simpl. rewrite lookup_insert_eq. simpl.
    apply Sorted_leOrder_sortByOrder.
  - unfold getQueries at 1, addQuery. simpl. rewrite lookup_insert_eq. simpl.
    apply sortByOrder_Permutation.
  - unfold getSecurity at 1, addSecurity. simpl. rewrite lookup_insert_eq. simpl.
    apply Sorted_leOrder_sortByOrder.
  - unfold getSecurity at 1, addSecurity. simpl. rewrite lookup_insert_eq. simpl.
    apply sortByOrder_Permutation.
  - unfold getTags at 1, addTag. simpl. rewrite lookup_insert_eq. simpl.
    apply Sorted_leOrder_sortByOrder.
  - unfold getTags at 1, addTag. simpl. rewrite lookup_insert_eq. simpl.
    apply sortByOrder_Permutation.
Qed.

(** X3: [addResponse] touches the responses of its target and nothing else:
    every other target keeps its whole aggregate, and the target keeps its
    operation, parameters, queries, body, security and tags. *)
Theorem addResponse_frame (s : MetadataStore) (f g : FunctionObject)
    (m : ApiResponseMetadata) :
  (g <> f -> getHandlerMetadata (addResponse f m s) g = getHandlerMetadata s g)
  /\ getOperation (addResponse f m s) g = getOperation s g
  /\ getParams (addResponse f m s) g = getParams s g
  /\ getQueries (addResponse f m s) g = getQueries s g
  /\ getBody (addResponse f m s) g = getBody s g
  /\ getSecurity (addResponse f m s) g = getSecurity s g
  /\ getTags (addResponse f m s) g = getTags s g.
Proof.
  split; [|done]. intros H. unfold getHandlerMetadata.
  by rewrite (getResponses_addResponse_ne s g f m) by done.
Qed.

Lemma addResponse_frame_witness :
  getHandlerMetadata (addResponse testFunction firstSuccess collidingStore) GetUser
  = getHandlerMetadata collidingStore GetUser.
Proof.
  apply (addResponse_frame collidingStore testFunction GetUser firstSuccess).
  discriminate.
Defined.

(** X4: [setOperation] overwrites: a second call replaces the first record as
    a whole, the store is the one a single call would have produced, and
    neither another target nor the collections of the target change. *)
Theorem setOperation_overwrites (s : MetadataStore) (t : FunctionObject)
    (m1 m2 : ApiOperationMetadata) :
  getOperation (setOperation t m2 (setOperation t m1 s)) t = Some m2
  /\ setOperation t m2 (setOperation t m1 s) = setOperation t m2 s
  /\ (forall g, g <> t ->
        getHandlerMetadata (setOperation t m2 s) g = getHandlerMetadata s g)
  /\ getResponses (setOperation t m2 s) t = getResponses s t
  /\ getParams (setOperation t m2 s) t = getParams s t.
Proof.
  split; [|split; [|split; [|done]]].
  - unfold getOperation, setOperation. simpl. apply lookup_insert_eq.
  - unfold setOperation. simpl. by rewrite insert_insert_eq.
  - intros g H. unfold getHandlerMetadata, getOperation, setOperation. simpl.
    by rewrite lookup_insert_ne.
Qed.

Lemma getHandlerMetadata_clearMetadata_ne (s : MetadataStore) (t g : FunctionObject) :
  g <> t -> getHandlerMetadata (clearMetadata t s) g = getHandlerMetadata s g.
Proof.
  intros H.
  unfold getHandlerMetadata, getOperation, getResponses, getParams, getQueries,
    getBody, getSecurity, getTags, clearMetadata. simpl.
  by rewrite !lookup_delete_ne.
Qed.

Lemma getHandlerMetadata_clearMetadata_eq (s : MetadataStore) (t : FunctionObject) :
  getHandlerMetadata (clearMetadata t s) t = noHandlerMetadata.
Proof.
  unfold getHandlerMetadata, getOperation, getResponses, getParams, getQueries,
    getBody, getSecurity, getTags, clearMetadata. simpl.
  by rewrite !lookup_delete_eq.
Qed.

(** X5: after [clearMetadata] the target has no metadata of any kind:
    [hasMetadata] is false, no key exists, the aggregate is the empty one;
    every other target keeps its aggregate. *)
Theorem clearMetadata_clears (s : MetadataStore) (t : FunctionObject) :
  hasMetadata (clearMetadata t s) t = false
  /\ getExistingMetadataKeys (clearMetadata t s) t = []
  /\ getHandlerMetadata (clearMetadata t s) t = noHandlerMetadata
  /\ (forall g, g <> t ->
        getHandlerMetadata (clearMetadata t s) g = getHandlerMetadata s g).
Proof.
  pose proof (getHandlerMetadata_clearMetadata_eq s t) as E.
  injection E as E1 E2 E3 E4 E5 E6 E7.
  split; [|split; [|split]].
  - unfold hasMetadata. by rewrite E1, E2, E3, E4, E5, E6, E7.
  - unfold getExistingMetadataKeys. by rewrite E1, E2, E3, E4, E5, E6, E7.
  - apply getHandlerMetadata_clearMetadata_eq.
  - intros g. apply getHandlerMetadata_clearMetadata_ne.
Qed.

Lemma length_pos_iff {A : Type} (l : list A) : (0 <? length l)%nat = false <-> l = [].
Proof. destruct l; simpl; split; done. Qed.

(** X6: [hasMetadata] and [getExistingMetadataKeys] agree: a target has
    metadata exactly when some key is listed, each key is listed exactly when
    its kind is present, and [hasMetadata] is false exactly for a target
    whose aggregate is the empty one. *)
Theorem hasMetadata_keys (s : MetadataStore) (t : FunctionObject) :
  (hasMetadata s t = true <-> getExistingMetadataKeys s t <> [])
  /\ (hasMetadata s t = false <-> getHandlerMetadata s t = noHandlerMetadata)
  /\ (METADATA_KEYS.API_OPERATION ∈ getExistingMetadataKeys s t
      <-> is_Some (getOperation s t))
  /\ (METADATA_KEYS.API_RESPONSES ∈ getExistingMetadataKeys s t
      <-> getResponses s t <> [])
  /\ (METADATA_KEYS.API_PARAMS ∈ getExistingMetadataKeys s t
      <-> getParams s t <> []).
Proof.
  unfold hasMetadata, getExistingMetadataKeys, getHandlerMetadata, noHandlerMetadata.
  destruct (getOperation s t) as [o|], (getResponses s t) as [|r rs],
    (getParams s t) as [|p ps], (getQueries s t) as [|q qs],
    (getBody s t) as [b|], (getSecurity s t) as [|c cs],
    (getTags s t) as [|g gs]; simpl;
    (split; [|split; [|split; [|split]]]);
    try (split; intros H; try done; try (by eexists);
         try (by destruct H);
         try (repeat (apply elem_of_cons in H as [H|H]; [discriminate H|]);
              by apply elem_of_nil in H);
         try (by repeat first [apply list_elem_of_here | apply list_elem_of_further])).
Qed.

End StoreExtras.

(* ===================================================================== *)
(** * Further properties of the decorators *)
(* ===================================================================== *)

Section DecoratorExtras.

Lemma ApiOperation_options_eta (o : ApiOperationOptions) :
  {| op_summary := op_summary o; op_description := op_description o;
     op_tags := op_tags o; op_operationId := op_operationId o;
     op_deprecated := op_deprecated o |} = o.
Proof. by destruct o. Qed.

Lemma orElse_nonempty (o : option string) (d : string) :
  d <> "" -> Js.orElse o d <> "".
Proof. intros H. destruct o as [[|c s]|]; simpl; done. Qed.

(** X7: [ApiOperation] records the options unchanged under a function name
    that is never empty: the property key when there is a non-empty one,
    otherwise the name of the target, otherwise [anonymous]. Neither counter
    moves. *)
Theorem ApiOperation_records (options : ApiOperationOptions)
    (target : FunctionObject) (propertyKey : option string)
    (descriptor : option PropertyDescriptor) (rt : Runtime) :
  let rt' := ApiOperation options target propertyKey descriptor rt in
  let f := targetFunctionOf target descriptor in
  exists name,
    getApiOperation (metadataStore rt') f
    = Some {| functionName := name; operation_options := options |}
    /\ name <> ""
    /\ (forall k, propertyKey = Some k -> k <> "" -> name = k)
    /\ (propertyKey = None \/ propertyKey = Some "" ->
        name = if decide (fn_name target = "") then "anonymous" else fn_name target)
    /\ hasApiOperation (metadataStore rt') f = true
    /\ responseOrder rt' = responseOrder rt
    /\ paramOrder rt' = paramOrder rt.
Proof.
  intros rt' f. subst rt' f.
  unfold ApiOperation, getApiOperation, hasApiOperation, getOperation, setOperation.
  simpl. rewrite lookup_insert_eq, ApiOperation_options_eta.
  eexists. split; [reflexivity|].
  split; [|split; [|split; [|done]]].
  - destruct propertyKey as [[|c k]|]; simpl; try done;
      by destruct (fn_name target).
  - intros k -> Hk. by destruct k.
  - intros [->| ->]; simpl; by destruct (fn_name target).
Qed.

Lemma ApiParam_stored (o : ApiParamOptions) (rt : Runtime) :
  {| param_options :=
       {| param_name := param_name o;
          param_description := param_description o;
          param_required :=
            Some (match param_required o with Some r => r | None => true end);
          param_type := param_type o;
          param_example := param_example o;
          param_enum := param_enum o;
          param_deprecated := param_deprecated o |};
     param_in := InPath; param_order := paramOrder rt |}
  = {| param_options := withRequiredDefault o; param_in := InPath;
       param_order := paramOrder rt |}.
Proof. reflexivity. Qed.

Lemma getParams_ApiParam_eq (rt : Runtime) (o : ApiParamOptions)
    (t : FunctionObject) (k : option string) (d : option PropertyDescriptor) :
  ParamsInOrder rt (targetFunctionOf t d) ->
  getParams (metadataStore (ApiParam o t k d rt)) (targetFunctionOf t d)
  = getParams (metadataStore rt) (targetFunctionOf t d)
      ++ [ {| param_options := withRequiredDefault o; param_in := InPath;
              param_order := paramOrder rt |} ].
Proof.
  intros [Hs Hb]. unfold ApiParam. simpl.
  rewrite getParams_addParam_eq.
  apply sortByOrder_snoc.
  - eapply StronglySorted_weaken; [|exact Hs]. unfold leOrder. intros; lia.
  - eapply Forall_impl; [exact Hb|]. simpl. intros; lia.
Qed.

Lemma getParams_ApiParam_ne (rt : Runtime) (o : ApiParamOptions)
    (t f : FunctionObject) (k : option string) (d : option PropertyDescriptor) :
  targetFunctionOf t d <> f ->
  getParams (metadataStore (ApiParam o t k d rt)) f = getParams (metadataStore rt) f.
Proof. intros H. unfold ApiParam. simpl. by apply getParams_addParam_ne. Qed.

Lemma apply_params (rt : Runtime) (f : FunctionObject) (a : Application) :
  ParamsInOrder rt f ->
  ParamsInOrder (apply rt a) f
  /\ param_options <$> getParams (metadataStore (apply rt a)) f
     = (param_options <$> getParams (metadataStore rt) f)
         ++ (withRequiredDefault <$> paramsAppliedTo f [a]).
Proof.
  intros Hrt. pose proof Hrt as [Hs Hb].
  destruct a as [[o|o|o] t k d];
    unfold apply, paramsAppliedTo, ParamsInOrder; cbn -[ApiParam].
  - split; [split; done|]. by rewrite app_nil_r.
  - split; [split; done|]. by rewrite app_nil_r.
  - case_decide as E.
    + subst f. rewrite getParams_ApiParam_eq by done.
      split; [split|].
      * apply StronglySorted_snoc; [done|]. exact Hb.
      * apply Forall_app. split.
        -- eapply Forall_impl; [exact Hb|]. simpl. intros; lia.
        -- constructor; [simpl; lia|constructor].
      * by rewrite fmap_app.
    + rewrite getParams_ApiParam_ne by done. split; [split|].
      * done.
      * eapply Forall_impl; [exact Hb|]. simpl. intros; lia.
      * by rewrite app_nil_r.
Qed.

Lemma paramsAppliedTo_cons (f : FunctionObject) (a : Application)
    (history : list Application) :
  paramsAppliedTo f (a :: history)
  = paramsAppliedTo f [a] ++ paramsAppliedTo f history.
Proof.
  unfold paramsAppliedTo. simpl.
  destruct (app_annotation a); try done. by case_decide.
Qed.

Lemma applyAll_params (history : list Application) (rt : Runtime)
    (f : FunctionObject) :
  ParamsInOrder rt f ->
  ParamsInOrder (applyAll rt history) f
  /\ param_options <$> getParams (metadataStore (applyAll rt history)) f
     = (param_options <$> getParams (metadataStore rt) f)
         ++ (withRequiredDefault <$> paramsAppliedTo f history).
Proof.
  revert rt. induction history as [|a history IH]; intros rt Hrt.
  - split; [done|]. by rewrite app_nil_r.
  - destruct (apply_params rt f a Hrt) as [Hrt' E].
    destruct (IH (apply rt a) Hrt') as [Hfin E'].
    split; [exact Hfin|].
    change (applyAll rt (a :: history)) with (applyAll (apply rt a) history).
    rewrite E', E, (paramsAppliedTo_cons f a history), fmap_app.
    symmetry. apply app_assoc.
Qed.

Lemma applyAll_params_fresh (history : list Application) (rt : Runtime)
    (f : FunctionObject) :
  getParams (metadataStore rt) f = [] ->
  param_options <$> getParams (metadataStore (applyAll rt history)) f
  = withRequiredDefault <$> paramsAppliedTo f history
  /\ StronglySorted (fun a b => param_order a < param_order b)
       (getParams (metadataStore (applyAll rt history)) f).
Proof.
  intros Hfresh.
  assert (ParamsInOrder rt f) as Hrt.
  { unfold ParamsInOrder. rewrite Hfresh. split; constructor. }
  destruct (applyAll_params history rt f Hrt) as [[Hs _] E].
  rewrite Hfresh in E. by split.
Qed.

Lemma StronglySorted_fmap_lt {A : Type} (g : A -> Z) (l : list A) :
  StronglySorted (fun a b => g a < g b) l -> StronglySorted Z.lt (g <$> l).
Proof.
  induction 1 as [|x l Hl IH Hx]; simpl; constructor; [done|].
  apply Forall_fmap. exact Hx.
Qed.

(** X8: a handler that starts without parameters and is then annotated, in
    any history of decorator applications, ends with exactly the parameters
    applied to it, in application order, each with [required] filled in
    (true unless given), and with strictly increasing sequence indices. *)
Theorem getParams_application_order (rt : Runtime) (f : FunctionObject)
    (history : list Application) :
  getApiParams (metadataStore rt) f = [] ->
  let stored := getApiParams (metadataStore (applyAll rt history)) f in
  param_options <$> stored = withRequiredDefault <$> paramsAppliedTo f history
  /\ StronglySorted Z.lt (param_order <$> stored).
Proof.
  intros Hfresh stored.
  destruct (applyAll_params_fresh history rt f Hfresh) as [E Hs].
  split; [exact E|]. subst stored. unfold getApiParams.
  by apply StronglySorted_fmap_lt.
Qed.

Lemma getParams_application_order_witness :
  let stored := getApiParams (metadataStore (applyAll initialRuntime twoParams))
                             getUserHandler in
  param_options <$> stored
  = withRequiredDefault <$> paramsAppliedTo getUserHandler twoParams
  /\ StronglySorted Z.lt (param_order <$> stored).
Proof.
  apply (getParams_application_order initialRuntime getUserHandler twoParams).
  reflexivity.
Defined.

Example twoParams_stored :
  (fun p => (param_name (param_options p), param_required (param_options p),
             param_order p))
    <$> getApiParams (metadataStore (applyAll initialRuntime twoParams)) getUserHandler
  = [("userId", Some true, 0); ("groupId", Some false, 1)].
Proof. vm_compute. reflexivity. Qed.

(** X9: the two counters are global and independent: after a history, the
    response counter has advanced by the number of response annotations and
    the parameter counter by the number of parameter annotations, on whatever
    targets. *)
Theorem counters_count_annotations (rt : Runtime) (history : list Application) :
  responseOrder (applyAll rt history)
  = responseOrder rt + Z.of_nat (countResponseAnnotations history)
  /\ paramOrder (applyAll rt history)
     = paramOrder rt + Z.of_nat (countParamAnnotations history).
Proof.
  revert rt. induction history as [|a history IH]; intros rt.
  - simpl. unfold countResponseAnnotations, countParamAnnotations. simpl. lia.
  - change (applyAll rt (a :: history)) with (applyAll (apply rt a) history).
    destruct (IH (apply rt a)) as [-> ->].
    unfold countResponseAnnotations, countParamAnnotations, isResponseAnnotation,
      isParamAnnotation, apply.
    destruct a as [[o|o|o] t k d]; simpl; lia.
Qed.

(** A parameter annotation leaves everything about responses alone, and
    a response annotation everything about parameters: the other counter,
    the other collection of every target, and every operation record. *)
Lemma kinds_are_independent (rt : Runtime) (t g : FunctionObject)
    (k : option string) (d : option PropertyDescriptor) :
  (forall o,
     let rt' := ApiParam o t k d rt in
     responseOrder rt' = responseOrder rt
     /\ getApiResponses (metadataStore rt') g = getApiResponses (metadataStore rt) g
     /\ getApiOperation (metadataStore rt') g = getApiOperation (metadataStore rt) g)
  /\ (forall o,
        let rt' := ApiResponse o t k d rt in
        paramOrder rt' = paramOrder rt
        /\ getApiParams (metadataStore rt') g = getApiParams (metadataStore rt) g
        /\ getApiOperation (metadataStore rt') g = getApiOperation (metadataStore rt) g).
Proof. split; intros o rt'; done. Qed.

Lemma find_first_match {A : Type} (P : A -> bool) (l : list A) (x : A) :
  find P l = Some x <->
  exists pre post, l = pre ++ x :: post
    /\ Forall (fun y => P y = false) pre /\ P x = true.
Proof.
  induction l as [|y l IH]; simpl.
  - split; [done|]. intros (pre & post & H & _). by destruct pre.
  - destruct (P y) eqn:E.
    + split.
      * intros [= ->]. exists [], l. by repeat split.
      * intros (pre & post & H & Hpre & Hx). destruct pre as [|z pre].
        -- by injection H as ->.
        -- injection H as -> _. inversion Hpre; congruence.
    + rewrite IH. split.
      * intros (pre & post & -> & Hpre & Hx). exists (y :: pre), post.
        split; [done|]. split; [by constructor|done].
      * intros (pre & post & H & Hpre & Hx). destruct pre as [|z pre].
        -- injection H as -> _. congruence.
        -- injection H as -> ->. inversion Hpre; subst. by exists pre, post.
Qed.

Lemma find_no_match {A : Type} (P : A -> bool) (l : list A) :
  find P l = None <-> Forall (fun y => P y = false) l.
Proof.
  induction l as [|y l IH]; simpl; [by split; [constructor|]|].
  destruct (P y) eqn:E.
  - split; [done|]. inversion 1; congruence.
  - rewrite IH. split; [by constructor|by inversion 1].
Qed.

(** X10: [getApiResponse] returns the first stored entry with the status
    asked for, and nothing exactly when no stored entry has that status. *)
Theorem getApiResponse_first_match (s : MetadataStore) (t : FunctionObject) (st : Z) :
  (getApiResponse s t st = None <->
     Forall (fun r => status (response_options r) <> st) (getApiResponses s t))
  /\ (forall r, getApiResponse s t st = Some r <->
        exists pre post, getApiResponses s t = pre ++ r :: post
          /\ Forall (fun r' => status (response_options r') <> st) pre
          /\ status (response_options r) = st).
Proof.
  unfold getApiResponse, getApiResponses. split.
  - rewrite find_no_match. apply Forall_iff. intros r.
    by rewrite bool_decide_eq_false.
  - intros r. rewrite find_first_match. split.
    + intros (pre & post & H & Hpre & Hr). exists pre, post.
      split; [done|]. split; [|by apply bool_decide_eq_true in Hr].
      eapply Forall_impl; [exact Hpre|]. intros r'. by rewrite bool_decide_eq_false.
    + intros (pre & post & H & Hpre & Hr). exists pre, post.
      split; [done|]. split; [|by apply bool_decide_eq_true].
      eapply Forall_impl; [exact Hpre|]. intros r'. by rewrite bool_decide_eq_false.
Qed.

(** X11: after a response annotation, whatever was stored before and whatever
    the counter is, the target has responses, the new entry is among them,
    and the look-up by its status finds an entry with that status. *)
Theorem ApiResponse_lookup_defined (o : ApiResponseOptions) (t : FunctionObject)
    (k : option string) (d : option PropertyDescriptor) (rt : Runtime) :
  let store' := metadataStore (ApiResponse o t k d rt) in
  let f := targetFunctionOf t d in
  hasApiResponse store' f = true
  /\ {| response_options := o; response_order := responseOrder rt |}
       ∈ getApiResponses store' f
  /\ exists r, getApiResponse store' f (status o) = Some r
       /\ status (response_options r) = status o.
Proof.
  intros store' f. subst store' f.
  unfold hasApiResponse, getApiResponses, getApiResponse, ApiResponse. simpl.
  rewrite getResponses_addResponse_eq, ApiResponse_options_eta.
  set (m := {| response_options := o; response_order := responseOrder rt |}).
  set (l := sortByOrder response_order _).
  assert (m ∈ l) as Hm.
  { subst l. rewrite (sortByOrder_Permutation response_order _).
    apply elem_of_app. right. by apply list_elem_of_singleton. }
  split; [|split; [exact Hm|]].
  - destruct l; [by apply elem_of_nil in Hm|done].
  - destruct (find _ l) as [r|] eqn:E.
    + exists r. split; [done|]. apply find_some in E as [_ E].
      by apply bool_decide_eq_true in E.
    + apply find_no_match in E. rewrite Forall_forall in E.
      specialize (E m Hm). by apply bool_decide_eq_false in E.
Qed.

(** X12: the same for parameters: after a parameter annotation the look-up by
    its name finds a path parameter with that name, and the entry stored has
    [required] true unless the options say otherwise. *)
Theorem ApiParam_lookup_defined (o : ApiParamOptions) (t : FunctionObject)
    (k : option string) (d : option PropertyDescriptor) (rt : Runtime) :
  let store' := metadataStore (ApiParam o t k d rt) in
  let f := targetFunctionOf t d in
  hasApiParam store' f = true
  /\ {| param_options := withRequiredDefault o; param_in := InPath;
        param_order := paramOrder rt |} ∈ getApiParams store' f
  /\ (param_required o = None ->
      param_required (withRequiredDefault o) = Some true)
  /\ exists p, getApiParam store' f (param_name o) = Some p
       /\ param_name (param_options p) = param_name o.
Proof.
  intros store' f. subst store' f.
  unfold hasApiParam, getApiParams, getApiParam, ApiParam. simpl.
  rewrite getParams_addParam_eq.
  set (m := {| param_options := _; param_in := InPath; param_order := paramOrder rt |}).
  set (l := sortByOrder param_order _).
  assert (m ∈ l) as Hm.
  { subst l. rewrite (sortByOrder_Permutation param_order _).
    apply elem_of_app. right. by apply list_elem_of_singleton. }
  split; [|split; [exact Hm|split]].
  - destruct l; [by apply elem_of_nil in Hm|done].
  - intros H. unfold withRequiredDefault. simpl. by rewrite H.
  - destruct (find _ l) as [r|] eqn:E.
    + exists r. split; [done|]. apply find_some in E as [_ E].
      by apply bool_decide_eq_true in E.
    + apply find_no_match in E. rewrite Forall_forall in E.
      specialize (E m Hm). by apply bool_decide_eq_false in E.
Qed.

End DecoratorExtras.

(* ===================================================================== *)
(** * Further properties of the generator *)
(* ===================================================================== *)

Section GeneratorExtras.

Lemma generateResponse_description_nonempty (r : ApiResponseMetadata) :
  response_description (generateResponse r) <> "".
Proof. unfold generateResponse. simpl. by apply orElse_nonempty. Qed.

Lemma generateResponses_nonempty (rs : list ApiResponseMetadata) :
  generateResponses rs <> ∅.
Proof.
  unfold generateResponses. case_decide as E.
  - apply insert_non_empty.
  - by apply map_size_non_empty_iff.
Qed.

(** X13: an operation never has an empty [responses] object, and every
    response in it has a non-empty description: the annotated one, or the
    text [Response <status>] when the annotation has none or an empty one. *)
Theorem generateResponses_described (rs : list ApiResponseMetadata) :
  generateResponses rs <> ∅
  /\ (forall k v, generateResponses rs !! k = Some v -> response_description v <> "")
  /\ (forall r, resp_description (response_options r) = None
                \/ resp_description (response_options r) = Some "" ->
        response_description (generateResponse r)
        = "Response " +:+ Js.toString (status (response_options r))).
Proof.
  split; [apply generateResponses_nonempty|split].
  - intros k v H. destruct rs as [|r rs].
    + rewrite generateResponses_nil in H.
      apply lookup_singleton_Some in H as [_ <-]. done.
    + rewrite generateResponses_cons, collectResponses_foldl in H by done.
      apply foldl_recordResponse_origin in H as [H|(r' & _ & _ & ->)]; [done|].
      apply generateResponse_description_nonempty.
  - intros r [H|H]; unfold generateResponse; simpl; by rewrite H.
Qed.

(** X14: the content of a response. A custom [content] wins over the type:
    the response has the media types of the custom content and no other,
    each with the schema given there, and the schema mapped from the type
    does not appear. Without custom content, a type gives one
    [application/json] entry with the mapped schema and the example of the
    annotation, and no type (or the empty string) gives no content even if
    there is an example. The example inside a custom content is assigned
    into the object of the annotation and is not part of this statement. *)
Theorem generateResponse_content (r : ApiResponseMetadata) :
  let o := response_options r in
  (forall c, resp_content o = Some c ->
     exists c', response_content (generateResponse r) = Some c'
       /\ (forall k, media_schema <$> c' !! k = media_schema <$> c !! k))
  /\ (forall t, resp_content o = None -> resp_type o = Some t ->
        typeRefTruthy t = true ->
        response_content (generateResponse r)
        = Some {[ "application/json" :=
                    {| media_schema := Some (generateSchemaFromType t);
                       media_example := resp_example o |} ]})
  /\ (resp_content o = None ->
      resp_type o = None \/ resp_type o = Some (TypeName "") ->
      response_content (generateResponse r) = None).
Proof.
  intros o. subst o. unfold generateResponse.
  destruct (response_options r) as [st de ty ex he co]. simpl.
  split; [|split].
  - intros c ->. destruct ex as [e|]; [|by exists c].
    destruct (c !! "application/json") as [m|] eqn:E; [|by exists c].
    eexists. split; [reflexivity|]. intros k.
    destruct (decide (k = "application/json")) as [->|Hk].
    + by rewrite lookup_insert_eq, E.
    + by rewrite lookup_insert_ne.
  - intros t -> -> Ht. rewrite Ht. destruct ex as [e|]; [|done].
    rewrite lookup_singleton_eq. by rewrite insert_singleton_eq.
  - intros -> [-> | ->]; simpl; by destruct ex.
Qed.

Lemma generateResponse_content_witness :
  exists c', response_content (generateResponse customContentResponse) = Some c'
    /\ media_schema <$> c' !! "application/json" = Some (Some (primitiveSchema "array"))
    /\ media_schema <$> c' !! "text/plain" = Some (Some (primitiveSchema "string"))
    /\ media_schema <$> c' !! "text/html" = None.
Proof.
  destruct (proj1 (generateResponse_content customContentResponse) _ eq_refl)
    as (c' & Hc & Hk).
  exists c'. split; [exact Hc|]. rewrite !Hk. repeat split.
Defined.

Lemma foldl_recordResponse_present (rs : list ApiResponseMetadata)
    (m : gmap string ResponseObject) (k : string) :
  is_Some (m !! k) -> is_Some (foldl recordResponse m rs !! k).
Proof.
  revert m. induction rs as [|r rs IH]; intros m H; [done|].
  simpl. apply IH. unfold recordResponse. apply lookup_insert_is_Some'. by right.
Qed.

Lemma foldl_recordResponse_size (rs : list ApiResponseMetadata)
    (m : gmap string ResponseObject) :
  (size (foldl recordResponse m rs) <= size m + length rs)%nat.
Proof.
  revert m. induction rs as [|r rs IH]; intros m; simpl; [lia|].
  etrans; [apply IH|]. unfold recordResponse. rewrite map_size_insert.
  destruct (m !! responseKey r); simpl; lia.
Qed.

(** X15: every status code among the response metadata of a handler has an
    entry in the responses of its operation; the operation has at least one
    response, and no more than there are metadata entries unless there are
    none, when it has the one default response. *)
Theorem generateResponses_covers (rs : list ApiResponseMetadata) :
  (forall r, r ∈ rs ->
     is_Some (generateResponses rs !! Js.toString (status (response_options r))))
  /\ (1 <= size (generateResponses rs) <= max 1 (length rs))%nat.
Proof.
  split.
  - intros r Hin.
    assert (rs <> []) as Hne by (intros ->; by apply elem_of_nil in Hin).
    rewrite generateResponses_cons, collectResponses_foldl by done.
    apply list_elem_of_split in Hin as (pre & post & ->).
    rewrite foldl_app. simpl. apply foldl_recordResponse_present.
    unfold recordResponse at 1. apply lookup_insert_is_Some'. by left.
  - destruct rs as [|r rs].
    + rewrite generateResponses_nil, map_size_singleton. simpl. lia.
    + pose proof (generateResponses_nonempty (r :: rs)) as Hne.
      apply map_size_non_empty_iff in Hne.
      rewrite generateResponses_cons, collectResponses_foldl in * by done.
      pose proof (foldl_recordResponse_size (r :: rs) ∅) as Hle.
      rewrite map_size_empty in Hle. lia.
Qed.

Lemma generateResponses_covers_witness :
  is_Some (generateResponses [firstSuccess; secondSuccess] !! "200")
  /\ size (generateResponses [firstSuccess; secondSuccess]) = 1%nat
  /\ size (generateResponses []) = 1%nat.
Proof.
  split; [|split; reflexivity].
  apply (proj1 (generateResponses_covers [firstSuccess; secondSuccess]) secondSuccess).
  apply elem_of_cons. right. apply elem_of_cons. by left.
Defined.

(** X16: the schema of a parameter. With an enumeration there is always a
    schema that carries it, on top of the mapped type if there is one; there
    is no schema exactly when there is neither an enumeration nor a non-empty
    type. [deprecated] appears only as true and [description] only when
    non-empty. *)
Theorem generateParameter_schema (p : ApiParamMetadata) :
  let o := param_options p in
  let built := generateParameter p in
  (forall e, param_enum o = Some e ->
     exists sch, parameter_schema built = Some sch
       /\ schema_enum sch = Some e
       /\ (forall t, param_type o = Some t -> typeRefTruthy t = true ->
             schema_type sch = schema_type (generateSchemaFromType t)
             /\ schema_items sch = schema_items (generateSchemaFromType t)))
  /\ (forall t, param_enum o = None -> param_type o = Some t ->
        typeRefTruthy t = true ->
        parameter_schema built = Some (generateSchemaFromType t))
  /\ (parameter_schema built = None <->
        param_enum o = None
        /\ (param_type o = None
            \/ exists t, param_type o = Some t /\ typeRefTruthy t = false))
  /\ parameter_deprecated built <> Some false
  /\ parameter_description built <> Some "".
Proof.
  intros o built. subst o built. unfold generateParameter.
  destruct (param_options p) as [na de re ty ex en dp]. simpl.
  split; [|split; [|split; [|split]]].
  - intros e ->. destruct ty as [t|]; [destruct (typeRefTruthy t) eqn:Ht|];
      eexists; (split; [reflexivity|]); (split; [done|]);
      intros t' [= <-] Ht'; simpl; try done; congruence.
  - intros t -> -> Ht. by rewrite Ht.
  - destruct en as [e|].
    + destruct ty as [t|]; [destruct (typeRefTruthy t)|]; split; try done;
        by intros [? _].
    + destruct ty as [t|]; [destruct (typeRefTruthy t) eqn:Ht|]; split; try done.
      * intros [_ [H|(t' & [= <-] & H)]]; congruence.
      * intros _. split; [done|]. right. by exists t.
      * intros _. split; [done|]. by left.
  - by destruct dp as [[|]|].
  - by destruct de as [[|c s]|].
Qed.

Lemma generateParameter_schema_witness :
  exists sch, parameter_schema (generateParameter sortParam) = Some sch
    /\ schema_enum sch = Some [JStr "asc"; JStr "desc"]
    /\ (forall t, param_type (param_options sortParam) = Some t ->
          typeRefTruthy t = true ->
          schema_type sch = schema_type (generateSchemaFromType t)
          /\ schema_items sch = schema_items (generateSchemaFromType t)).
Proof.
  apply (proj1 (generateParameter_schema sortParam)). reflexivity.
Defined.

(** X17: an operation has a [parameters] array exactly when the handler has
    parameter metadata, and then it has one parameter per entry, in the
    stored order, with the name, location and [required] of the entry. *)
Theorem generateOperation_parameters (metadata : HandlerMetadata) :
  (operation_parameters (generateOperation metadata) = None <-> params metadata = [])
  /\ (forall ps, operation_parameters (generateOperation metadata) = Some ps ->
        length ps = length (params metadata)
        /\ parameter_name <$> ps
           = (fun p => param_name (param_options p)) <$> params metadata
        /\ parameter_in <$> ps = param_in <$> params metadata
        /\ parameter_required <$> ps
           = (fun p => param_required (param_options p)) <$> params metadata).
Proof.
  unfold generateOperation. simpl. destruct (params metadata) as [|p ps0]; simpl.
  - split; [done|]. by intros ps.
  - split; [split; done|]. intros ps [= <-]. simpl.
    rewrite length_fmap, <- !list_fmap_compose. done.
Qed.

Lemma generateOperation_parameters_of_store (store : MetadataStore)
    (f : FunctionObject) :
  getParams store f <> [] ->
  operation_parameters (generateOperation (getHandlerMetadata store f))
  = Some (generateParameter <$> getParams store f).
Proof.
  intros H. unfold generateOperation. simpl.
  destruct (getParams store f); [done|]. by rewrite decide_True by (simpl; lia).
Qed.

(** X18: annotation and assembly compose: for a handler that starts without
    parameters and receives at least one in a history of annotations, the
    operation lists exactly the applied parameters, in application order, by
    name, with [required] true unless the annotation says otherwise. *)
Theorem document_parameters_in_application_order (rt : Runtime)
    (f : FunctionObject) (history : list Application) :
  getApiParams (metadataStore rt) f = [] ->
  paramsAppliedTo f history <> [] ->
  exists ps,
    operation_parameters
      (generateOperation
         (getHandlerMetadata (metadataStore (applyAll rt history)) f)) = Some ps
    /\ parameter_name <$> ps = param_name <$> paramsAppliedTo f history
    /\ parameter_required <$> ps
       = (fun o => Some (default true (param_required o)))
           <$> paramsAppliedTo f history.
Proof.
  intros Hfresh Hne.
  destruct (applyAll_params_fresh history rt f Hfresh) as [E _].
  set (stored := getParams (metadataStore (applyAll rt history)) f) in *.
  assert (stored <> []) as Hstored.
  { intros H. rewrite H in E. simpl in E. symmetry in E.
    by apply fmap_nil_inv in E. }
  eexists. split; [by apply generateOperation_parameters_of_store|].
  fold stored. split.
  - rewrite <- list_fmap_compose.
    change (parameter_name ∘ generateParameter)
      with (param_name ∘ param_options).
    rewrite list_fmap_compose, E, <- list_fmap_compose. done.
  - rewrite <- list_fmap_compose.
    change (parameter_required ∘ generateParameter)
      with (param_required ∘ param_options).
    rewrite list_fmap_compose, E, <- list_fmap_compose.
    apply list_fmap_ext. intros i o _. simpl. by destruct (param_required o).
Qed.

Lemma document_parameters_in_application_order_witness :
  exists ps,
    operation_parameters
      (generateOperation
         (getHandlerMetadata (metadataStore (applyAll initialRuntime twoParams))
                             getUserHandler)) = Some ps
    /\ parameter_name <$> ps = ["userId"; "groupId"]
    /\ parameter_required <$> ps = [Some true; Some false].
Proof.
  refine (document_parameters_in_application_order initialRuntime getUserHandler
            twoParams _ _).
  - reflexivity.
  - vm_compute. discriminate.
Defined.

End GeneratorExtras.

(* ===================================================================== *)
(** * Further properties of the heuristics and of the paths *)
(* ===================================================================== *)

Section PathExtras.

Lemma lowerByte_idempotent (st : bool) (c : ascii) :
  Js.lowerByte st (Js.lowerByte st c) = Js.lowerByte st c
  /\ Js.isLatin1Lead (Js.lowerByte st c) = Js.isLatin1Lead c.
Proof. destruct st, c as [[] [] [] [] [] [] [] []]; by vm_compute. Qed.

Lemma toLowerCaseFrom_idempotent (s : string) (st : bool) :
  Js.toLowerCaseFrom st (Js.toLowerCaseFrom st s) = Js.toLowerCaseFrom st s.
Proof.
  revert st. induction s as [|c s IH]; intros st; [done|].
  rewrite !toLowerCaseFrom_cons.
  destruct (lowerByte_idempotent st c) as [-> ->]. by rewrite IH.
Qed.

Lemma removeLeadingDash_lower (s : string) :
  Js.toLowerCase s = s ->
  Js.toLowerCase (Js.removeLeadingDash s) = Js.removeLeadingDash s.
Proof.
  destruct s as [|c s]; [done|]. intros H.
  destruct (decide (c = "-"%char)) as [->|Hne].
  - unfold Js.toLowerCase in H. rewrite toLowerCaseFrom_cons in H.
    by injection H.
  - by rewrite removeLeadingDash_other.
Qed.

Lemma lowerByte_not_capital (st : bool) (c : ascii) :
  isCapitalAZ (Js.lowerByte st c) = false.
Proof. destruct st, c as [[] [] [] [] [] [] [] []]; by vm_compute. Qed.

Lemma toLowerCaseFrom_no_capital (s : string) (st : bool) :
  Forall (fun c => isCapitalAZ c = false)
         (String.list_ascii_of_string (Js.toLowerCaseFrom st s)).
Proof.
  revert st. induction s as [|c s IH]; intros st; simpl; constructor.
  - apply lowerByte_not_capital.
  - apply IH.
Qed.

Lemma removeLeadingDash_Forall (P : ascii -> Prop) (s : string) :
  Forall P (String.list_ascii_of_string s) ->
  Forall P (String.list_ascii_of_string (Js.removeLeadingDash s)).
Proof.
  rewrite removeLeadingDash_strip. destruct s as [|c s]; [done|]. simpl.
  intros H. destruct (Ascii.eqb c "-"); [by inversion H|done].
Qed.

(** X19: an inferred path contains no capital letter A to Z, whatever the
    name; for a name written in Basic Latin and the Latin-1 Supplement it
    contains no capital letter at all: lower-casing leaves it as it is. *)
Theorem generatePathFromFunction_lower_case (name : string) :
  Forall (fun c => isCapitalAZ c = false)
         (String.list_ascii_of_string (generatePathFromFunction name))
  /\ (Js.isLatin1 name = true ->
      Js.toLowerCase (generatePathFromFunction name) = generatePathFromFunction name).
Proof.
  unfold generatePathFromFunction. split.
  - change ("/" +:+ ?s) with (String "/" s). simpl. constructor; [done|].
    apply removeLeadingDash_Forall, toLowerCaseFrom_no_capital.
  - intros _. change ("/" +:+ ?s) with (String "/" s).
    unfold Js.toLowerCase at 1. rewrite toLowerCaseFrom_cons.
    change (Js.lowerByte false "/") with "/"%char.
    change (Js.isLatin1Lead "/") with false. f_equal.
    apply removeLeadingDash_lower, toLowerCaseFrom_idempotent.
Qed.

Lemma generatePathFromFunction_lower_case_witness :
  Js.isLatin1 "getÉcoleHandler" = true
  /\ Js.toLowerCase (generatePathFromFunction "getÉcoleHandler")
     = generatePathFromFunction "getÉcoleHandler".
Proof.
  split; [reflexivity|].
  exact (proj2 (generatePathFromFunction_lower_case "getÉcoleHandler") eq_refl).
Defined.

(** X20: a name and the same name followed by [Handler] are given the same
    path, provided the name does not itself end in [Handler] (only one
    suffix is stripped). *)
Theorem generatePathFromFunction_suffix (stem : string) :
  (forall p, stem <> p +:+ "Handler") ->
  generatePathFromFunction (stem +:+ "Handler") = generatePathFromFunction stem.
Proof.
  intros H. unfold generatePathFromFunction.
  by rewrite removeSuffix_app, (removeSuffix_none "Handler" stem H).
Qed.

Lemma generatePathFromFunction_suffix_witness :
  generatePathFromFunction ("getUser" +:+ "Handler") = generatePathFromFunction "getUser".
Proof.
  apply (generatePathFromFunction_suffix "getUser").
  intros p H. destruct p as [|c p]; [vm_compute in H; discriminate H|].
  apply (f_equal String.length) in H.
  rewrite string_length_app in H. simpl in H. lia.
Defined.

Lemma generatePaths_items_aux (store : MetadataStore) (handlers : list FunctionObject)
    (path : string) (item : PathItemObject) :
  generatePaths store handlers !! path = Some item ->
  item <> ∅
  /\ (forall method, is_Some (item !! method) -> method ∈ httpMethods)
  /\ exists rest, path = String "/" rest.
Proof.
  revert path item. induction handlers as [|h handlers IH] using rev_ind;
    intros path item.
  - unfold generatePaths. simpl. by rewrite lookup_empty.
  - rewrite generatePaths_snoc, addHandler_contribution.
    destruct (contribution store h) as [[[path' method'] op']|] eqn:E; [|apply IH].
    apply contribution_Some in E as (meta & _ & -> & -> & _).
    rewrite lookup_insert. case_decide as Hp; [|apply IH].
    subst path. intros [= <-]. split; [apply insert_non_empty|split].
    + intros method. rewrite lookup_insert_is_Some.
      intros [<-|[_ Hm]]; [apply determineHttpMethod_range|].
      destruct (generatePaths store handlers !! _) as [old|] eqn:Eold; simpl in Hm.
      * by apply (IH _ _ Eold).
      * rewrite lookup_empty in Hm. by destruct Hm.
    + apply generatePathFromFunction_slash.
Qed.

Lemma generatePaths_size (store : MetadataStore) (handlers : list FunctionObject) :
  (size (generatePaths store handlers)
   <= length (filter (fun h => is_Some (getOperation store h)) handlers))%nat.
Proof.
  induction handlers as [|h handlers IH] using rev_ind.
  - unfold generatePaths. simpl. by rewrite map_size_empty.
  - rewrite generatePaths_snoc, addHandler_contribution, filter_app, length_app.
    unfold contribution. destruct (getOperation store h) as [meta|] eqn:E.
    + rewrite map_size_insert, filter_cons, decide_True by (by rewrite E).
      simpl. destruct (generatePaths store handlers !! _); simpl; lia.
    + lia.
Qed.

(** X21: the shape of [paths]: every key starts with a slash, no path item
    is empty, every method name in a path item is one of [get], [post],
    [put], [delete], [patch], and there are at most as many paths as there
    are handlers with operation metadata in the list. *)
Theorem generatePaths_shape (store : MetadataStore) (handlers : list FunctionObject) :
  (forall path item, generatePaths store handlers !! path = Some item ->
     item <> ∅
     /\ (forall method, is_Some (item !! method) -> method ∈ httpMethods)
     /\ exists rest, path = String "/" rest)
  /\ (size (generatePaths store handlers)
      <= length (filter (fun h => is_Some (getOperation store h)) handlers))%nat.
Proof.
  split; [apply generatePaths_items_aux|apply generatePaths_size].
Qed.

End PathExtras.

Section AssemblyExtras.

Lemma operationAt_present (store : MetadataStore) (handlers : list FunctionObject)
    (h : FunctionObject) (path method : string) (op : OperationObject) :
  h ∈ handlers -> contribution store h = Some (path, method, op) ->
  is_Some (operationAt (generatePaths store handlers) path method).
Proof.
  intros Hin Hc. induction handlers as [|x handlers IH] using rev_ind.
  - by apply elem_of_nil in Hin.
  - rewrite generatePaths_snoc, operationAt_addHandler.
    apply elem_of_app in Hin as [Hin|Hin].
    + destruct (contribution store x) as [[[path' method'] op']|]; [|by apply IH].
      case_decide; [by eexists|by apply IH].
    + apply list_elem_of_singleton in Hin as <-. rewrite Hc.
      rewrite decide_True by done. by eexists.
Qed.

(** Two path maps with the same keys and the same operations are equal. *)
Lemma paths_ext (paths1 paths2 : gmap string PathItemObject) :
  (forall path, is_Some (paths1 !! path) <-> is_Some (paths2 !! path)) ->
  (forall path method,
     operationAt paths1 path method = operationAt paths2 path method) ->
  paths1 = paths2.
Proof.
  intros Hkeys Hops. apply map_eq. intros path.
  specialize (Hkeys path). pose proof (Hops path) as Hp. unfold operationAt in Hp.
  destruct (paths1 !! path) as [item1|], (paths2 !! path) as [item2|]; simpl in Hp.
  - f_equal. apply map_eq. exact Hp.
  - destruct Hkeys as [Hk _]. destruct Hk as [? ?]; [by eexists|done].
  - destruct Hkeys as [_ Hk]. destruct Hk as [? ?]; [by eexists|done].
  - done.
Qed.

Lemma paths_key_iff (store : MetadataStore) (handlers : list FunctionObject)
    (path : string) :
  is_Some (generatePaths store handlers !! path) <->
  exists h method op, h ∈ handlers /\ contribution store h = Some (path, method, op).
Proof.
  split; [apply paths_key_origin|].
  intros (h & method & op & Hin & Hc).
  apply contribution_Some in Hc as (meta & Hm & -> & _).
  by eapply paths_key_present.
Qed.

(** X22: the order of the handlers, and repetitions in the list, matter only
    where handlers collide: two lists with the same members, in which
    handlers that resolve to the same path and method build the same
    operation, give the same paths. *)
Theorem generatePaths_order_irrelevant (store : MetadataStore)
    (handlers1 handlers2 : list FunctionObject) :
  (forall h, h ∈ handlers1 <-> h ∈ handlers2) ->
  (forall h h' path method op op',
     h ∈ handlers1 -> h' ∈ handlers1 ->
     contribution store h = Some (path, method, op) ->
     contribution store h' = Some (path, method, op') -> op = op') ->
  generatePaths store handlers1 = generatePaths store handlers2.
Proof.
  intros Hmem Hsame. apply paths_ext.
  - intros path. rewrite !paths_key_iff.
    split; intros (h & m & op & Hin & Hc); exists h, m, op;
      (split; [by apply Hmem|done]).
  - intros path method.
    destruct (operationAt (generatePaths store handlers1) path method) as [op1|] eqn:E1;
      destruct (operationAt (generatePaths store handlers2) path method) as [op2|] eqn:E2;
      try done.
    + apply operationAt_origin in E1 as (h1 & Hin1 & Hc1).
      apply operationAt_origin in E2 as (h2 & Hin2 & Hc2).
      f_equal. eapply (Hsame h1 h2); [done|by apply Hmem|done|done].
    + apply operationAt_origin in E1 as (h1 & Hin1 & Hc1).
      apply Hmem in Hin1.
      destruct (operationAt_present store handlers2 h1 path method op1 Hin1 Hc1)
        as [? ?]. congruence.
    + apply operationAt_origin in E2 as (h2 & Hin2 & Hc2).
      apply Hmem in Hin2.
      destruct (operationAt_present store handlers1 h2 path method op2 Hin2 Hc2)
        as [? ?]. congruence.
Qed.

Lemma generatePaths_order_irrelevant_witness :
  generatePaths collidingStore [getUserHandler; createUserHandler]
  = generatePaths collidingStore
      [createUserHandler; getUserHandler; createUserHandler].
Proof.
  apply generatePaths_order_irrelevant.
  - intros h. rewrite !elem_of_cons, !elem_of_nil. tauto.
  - intros h h' path method op op' Hh Hh' Hc Hc'.
    rewrite !elem_of_cons, elem_of_nil in Hh, Hh'.
    destruct Hh as [->|[->|[]]], Hh' as [->|[->|[]]];
      vm_compute in Hc, Hc'; congruence.
Defined.



End AssemblyExtras.
